(** * red-perfume: the CSS atomizer ([src/css.js]) and its parser front end

    A shallow embedding of [css.js] (the atomization engine) and of the two
    versions of [css-parser.js], followed by the properties of the engine.

    Conventions of the embedding.
    - A JS object used as a map is an association list in insertion order
      ([JsObject]): [Object.keys] lists the keys in the order in which they
      were first assigned, assigning to an existing key keeps its place, and
      [delete] removes the entry.  A JS engine departs from this at three
      kinds of key: array indices are listed first, an assignment to
      ["__proto__"] adds no entry, and the names of [Object.prototype] are
      found in an object that has no such key.  The class map is read
      through [inheritedMember], which accounts for the inherited names;
      the properties that depend on the order of the keys, or on the entry
      under one key of the table of new rules, say which keys they are
      about ([indexLike], [tableKey]).
    - A parsed rule carries its declarations as an array.
    - JS strings are [string]; only [':'] and ['.'] are inspected by the
      engine, and both are ASCII.
    - A [TypeError], raised by a property access on [undefined] or by a
      call of a member that is no function, aborts the call: engine
      functions return a [Completion]. *)

From Stdlib Require Import List String Ascii Bool Arith Lia.
From Stdlib Require Import DecimalNat DecimalString.
Import ListNotations.
Open Scope string_scope.
Open Scope list_scope.

(** ** JS strings *)

Module JsString.

(** [s.split(sep)] for a one-character separator; never the empty list. *)
Fixpoint split (sep : ascii) (s : string) : list string :=
  match s with
  | EmptyString => [EmptyString]
  | String c r =>
      if Ascii.eqb c sep then EmptyString :: split sep r
      else match split sep r with
           | [] => [String c EmptyString]
           | h :: t => String c h :: t
           end
  end.

(** [parts.join(sep)] *)
Fixpoint join (sep : string) (parts : list string) : string :=
  match parts with
  | [] => EmptyString
  | [p] => p
  | p :: ps => p ++ sep ++ join sep ps
  end.

(** [s.split(':')[0]] *)
Definition beforeColon (s : string) : string :=
  hd EmptyString (split ":" s).

(** [s.includes(c)] for a one-character needle *)
Fixpoint includes (c : ascii) (s : string) : bool :=
  match s with
  | EmptyString => false
  | String c' r => Ascii.eqb c' c || includes c r
  end.

(** [s.startsWith(c)] for a one-character prefix *)
Definition startsWith (c : ascii) (s : string) : bool :=
  match s with
  | EmptyString => false
  | String c' _ => Ascii.eqb c' c
  end.

Definition upperChar (c : ascii) : ascii :=
  let n := nat_of_ascii c in
  if ((97 <=? n)%nat && (n <=? 122)%nat)%bool then ascii_of_nat (n - 32) else c.

(** [s.toUpperCase()], on the ASCII letters (pseudo-class names are ASCII
    identifiers); any other character is left as it is. *)
Fixpoint toUpperCase (s : string) : string :=
  match s with
  | EmptyString => EmptyString
  | String c r => String (upperChar c) (toUpperCase r)
  end.

End JsString.

(** ** JS objects used as insertion-ordered maps *)

Module JsObject.
Section WithValue.
Context {V : Type}.

Definition t := list (string * V).

(** [o[k]] *)
Fixpoint get (k : string) (o : t) : option V :=
  match o with
  | [] => None
  | (k', v) :: r => if String.eqb k' k then Some v else get k r
  end.

(** [o[k] = v], for a key other than ["__proto__"] *)
Fixpoint set (k : string) (v : V) (o : t) : t :=
  match o with
  | [] => [(k, v)]
  | (k', v') :: r =>
      if String.eqb k' k then (k', v) :: r else (k', v') :: set k v r
  end.

(** [delete o[k]] *)
Fixpoint delete (k : string) (o : t) : t :=
  match o with
  | [] => []
  | (k', v') :: r =>
      if String.eqb k' k then r else (k', v') :: delete k r
  end.

(** [Object.keys(o)], for an object without array indices among its
    keys *)
Definition keys (o : t) : list string := map fst o.

Definition values (o : t) : list V := map snd o.

(** The representation invariant of an object: one entry per key. *)
Definition wf (o : t) : Prop := NoDup (keys o).
End WithValue.
Arguments t : clear implicits.
End JsObject.

(** ** [removeIdenticalProperties] *)

(** The class map: selector text to the array of atomized class names. *)
Definition ClassMap := JsObject.t (list string).

(** [set.add(x)]: a JS [Set] listed in insertion order. *)
Definition Set_add (s : list string) (x : string) : list string :=
  if existsb (String.eqb x) s then s else s ++ [x].

(** [Array.from(new Set(arr))] *)
Definition Set_from (arr : list string) : list string :=
  fold_left Set_add arr [].

(** [Array.from(new Set(arr.reverse())).reverse()] *)
Definition uniqueFromEnd (arr : list string) : list string :=
  rev (Set_from (rev arr)).

(** The body of [Object.keys(classMap).forEach]. *)
Definition dedupEntry (classMap : ClassMap) (selector : string) : ClassMap :=
  match JsObject.get selector classMap with
  | Some arr => JsObject.set selector (uniqueFromEnd arr) classMap
  | None => classMap
  end.

Definition removeIdenticalProperties (classMap : ClassMap) : ClassMap :=
  fold_left dedupEntry (JsObject.keys classMap) classMap.

(** The deduplication as the specification words it: an element stays
    exactly when it does not occur again later in the sequence. *)
Fixpoint keepLastOccurrences (l : list string) : list string :=
  match l with
  | [] => []
  | x :: r =>
      if existsb (String.eqb x) r then keepLastOccurrences r
      else x :: keepLastOccurrences r
  end.

(** ** Completions: a call returns normally or throws *)

Inductive Exn : Type :=
| TypeError      (* a property access on [undefined], a call of no function *)
| Thrown (payload : string).      (* an exception raised by a collaborator *)

Inductive Completion (A : Type) : Type :=
| Normal (a : A)
| Throw (e : Exn).
Arguments Normal {A} a.
Arguments Throw {A} e.

Definition bind {A B : Type} (c : Completion A) (k : A -> Completion B)
  : Completion B :=
  match c with
  | Normal a => k a
  | Throw e => Throw e
  end.

Notation "x <- c ;; k" := (bind c (fun x => k))
  (at level 61, c at next level, right associativity).
Notation "' p <- c ;; k" := (bind c (fun p => k))
  (at level 61, p pattern, c at next level, right associativity).

(** [arr.forEach(function (x) { ... })] where the body updates the state
    captured by the closure and may throw. *)
Fixpoint forEach {A S : Type} (arr : list A) (body : S -> A -> Completion S)
  (s : S) : Completion S :=
  match arr with
  | [] => Normal s
  | x :: r => s' <- body s x ;; forEach r body s'
  end.

(** ** The parsed stylesheet *)

Record Position : Type := {
  startLine : nat; startColumn : nat; endLine : nat; endColumn : nat
}.

Record Declaration : Type := {
  property : string;
  value : string;
  declarationPosition : option Position      (* [declaration.position] *)
}.

(** One component of a selector as [css-what] returns it, with the
    [original] text the parser attaches to the first component of each
    top-level selector ([None] is [undefined]). *)
Record Component : Type := {
  type : string;
  name : string;
  original : option string
}.

Definition Selector := list Component.

(** A style rule as the parser hands it to the engine, with its
    declarations array. *)
Record Rule : Type := {
  selectors : list Selector;
  declarations : list Declaration;
  rulePosition : option Position             (* [rule.position] *)
}.

(** A node of [css.parse]'s [stylesheet.rules]: only style rules have
    [selectors] ([None] for comments and at-rules).  A node carries a
    declarations array; the rule the silent parser recovers from a block
    that is not closed, which has none, is not among these nodes. *)
Record RawRule : Type := {
  rawSelectors : option (list string);
  rawDeclarations : list Declaration;
  rawPosition : option Position
}.

(** A rule of the rewritten stylesheet:
    [{type: 'rule', selectors: [[name]], declarations}]. *)
Record NewRule : Type := {
  newSelectors : list (list (option string));
  newDeclarations : list Declaration
}.

Definition NewRules := JsObject.t NewRule.

(** [{type: 'stylesheet', stylesheet: {rules, parsingErrors: []}}] *)
Record Stylesheet : Type := { rules : list NewRule }.

Record Result : Type := { classMap : ClassMap; output : string }.

(** What [helpers.throwError] was called with. *)
Inductive Report : Type :=
| ReportError (message : string) (err : Exn)       (* (options, message, err) *)
| ReportInput (message : string) (input : string)  (* (options, message, input) *)
| ReportBare (message : string).                   (* (message) *)

(** A call's reports, in order, and its completion. *)
Definition Logged (A : Type) : Type := list Report * Completion A.

(** The modules [css.js] and [css-parser.js] require. *)
Class Collaborators : Type := {
  Options : Type;
  verbose : Options -> bool;
  (** [css.parse(input, {silent, source: undefined})]; [None] is a falsy
      result. *)
  cssParse : string -> bool -> Completion (option (list RawRule));
  (** [require('css-what').parse] *)
  selectorParse : string -> Completion (list Selector);
  (** [css-class-encoding.js] *)
  encodeClassName : Options -> Declaration -> string;
  (** [css-uglifier.js]: [{name, index}] *)
  cssUglifier : nat -> string * nat;
  (** [css-stringify.js] *)
  cssStringify : Stylesheet -> string
}.

(** Modelled from the spec: [helpers.throwError] (helpers.js is not among
    the sources) is the reporting hook, "used in place of raising": it hands
    the report to the host and returns. *)
Definition throwError (r : Report) (log : list Report) : list Report :=
  log ++ [r].

(** ** [recursivelyRemovePosition] *)

Module RemovePosition.
Definition declaration (d : Declaration) : Declaration :=
  {| property := property d; value := value d;
     declarationPosition := None |}.

(** Selector components carry no [position] attribute. *)
Definition rule (r : Rule) : Rule :=
  {| selectors := selectors r;
     declarations := map declaration (declarations r);
     rulePosition := None |}.

Definition rawRule (r : RawRule) : RawRule :=
  {| rawSelectors := rawSelectors r;
     rawDeclarations := map declaration (rawDeclarations r);
     rawPosition := None |}.

Definition newRule (r : NewRule) : NewRule :=
  {| newSelectors := newSelectors r;
     newDeclarations := map declaration (newDeclarations r) |}.

(** The sweep of the table of new rules: the rule under each key is
    swept.  On the table itself the sweep deletes the entry under
    ["position"], and throws when there is an entry under
    ["hasOwnProperty"], the method it calls on the table; the table is
    taken to have neither (see [tableKey]). *)
Definition newRules (t : NewRules) : NewRules :=
  map (fun kv => (fst kv, newRule (snd kv))) t.
End RemovePosition.

(** ** [css-parser.js] *)

Section Parser.
Context `{Collaborators}.

(** [for (i ...) parsedSelectors[i][0]['original'] = rule.selectors[i]] *)
Fixpoint attachOriginal (parsedSelectors : list Selector)
  (texts : list string) : Completion (list Selector) :=
  match parsedSelectors with
  | [] => Normal []
  | [] :: _ => Throw TypeError
  | (first :: more) :: rest =>
      rest' <- attachOriginal rest (tl texts) ;;
      Normal (({| type := type first; name := name first;
                  original := hd_error texts |} :: more) :: rest')
  end.

(** The body of [parsed.stylesheet.rules.forEach] in the parser. *)
Definition parseSelectors (rule : RawRule) : Completion Rule :=
  match rawSelectors rule with
  | None => Throw TypeError
  | Some texts =>
      parsedSelectors <- selectorParse (JsString.join "," texts) ;;
      parsedSelectors' <- attachOriginal parsedSelectors texts ;;
      Normal {| selectors := parsedSelectors';
                declarations := rawDeclarations rule;
                rulePosition := rawPosition rule |}
  end.

Fixpoint mapM {A B : Type} (f : A -> Completion B) (l : list A)
  : Completion (list B) :=
  match l with
  | [] => Normal []
  | x :: r => y <- f x ;; ys <- mapM f r ;; Normal (y :: ys)
  end.

(** The parser that leaves the position metadata in place. *)
Definition cssParser (options : Options) (input : string)
  : Logged (option (list Rule)) :=
  if String.eqb input "" then
    (throwError (ReportBare "Invalid CSS input.") [], Normal None)
  else
    ([],
     parsed <- cssParse input (negb (verbose options)) ;;
     match parsed with
     | None => Normal None
     | Some rawRules =>
         parsedRules <- mapM parseSelectors rawRules ;;
         Normal (Some parsedRules)
     end).

(** The parser that removes the position metadata before it parses the
    selectors. *)
Definition cssParserStripping (options : Options) (input : string)
  : Logged (option (list Rule)) :=
  if String.eqb input "" then
    (throwError (ReportBare "Invalid CSS input.") [], Normal None)
  else
    ([],
     parsed <- cssParse input (negb (verbose options)) ;;
     match parsed with
     | None => Normal None
     | Some rawRules =>
         parsedRules <-
           mapM parseSelectors (map RemovePosition.rawRule rawRules) ;;
         Normal (Some parsedRules)
     end).
End Parser.

(** ** [css.js] *)

Section Engine.
Context `{Collaborators}.

(** The names a plain object inherits from [Object.prototype]. *)
Definition objectPrototypeNames : list string :=
  ["__proto__"; "constructor"; "hasOwnProperty"; "isPrototypeOf";
   "propertyIsEnumerable"; "toLocaleString"; "toString"; "valueOf";
   "__defineGetter__"; "__defineSetter__"; "__lookupGetter__";
   "__lookupSetter__"].

(** [classMap[name]] is a member inherited from [Object.prototype]: the
    name is one of the inherited names and no key of the class map itself.
    Such a member is truthy, so [classMap[name] || []] keeps it, and it has
    no [push]. *)
Definition inheritedMember (name : string) (classMap : ClassMap) : bool :=
  existsb (String.eqb name) objectPrototypeNames
  && match JsObject.get name classMap with
     | Some _ => false
     | None => true
     end.

Definition updateClassMap (classMap : ClassMap) (sels : list Selector)
  (encodedClassName : string) : Completion ClassMap :=
  forEach sels
    (fun classMap selector =>
       match selector with
       | [] => Throw TypeError
       | first :: _ =>
           match original first with
           | None => Throw TypeError
           | Some originalSelectorName =>
               let originalSelectorName :=
                 JsString.beforeColon originalSelectorName in
               if inheritedMember originalSelectorName classMap then
                 Throw TypeError
               else
                 let arr :=
                   match JsObject.get originalSelectorName classMap with
                   | Some arr => arr
                   | None => []
                   end in
                 Normal (JsObject.set originalSelectorName
                           (arr ++ [JsString.beforeColon encodedClassName])
                           classMap)
           end
       end)
    classMap.

(** [rule.selectors[0][0]] *)
Definition firstComponent (rule : Rule) : Completion Component :=
  match selectors rule with
  | (first :: _) :: _ => Normal first
  | _ => Throw TypeError
  end.

(** A property key made from a value that may be [undefined]. *)
Definition propertyKey (s : option string) : string :=
  match s with
  | Some s => s
  | None => "undefined"
  end.

Definition handleNonClasses (rule : Rule) (newRules : NewRules)
  : Completion NewRules :=
  first <- firstComponent rule ;;
  let originalSelectorName := original first in
  Normal (JsObject.set (propertyKey originalSelectorName)
            {| newSelectors := [[originalSelectorName]];
               newDeclarations := declarations rule |}
            newRules).

(** [type === 'tag' || (type === 'attribute' && name !== 'class')] *)
Definition isNonClass (c : Component) : bool :=
  String.eqb (type c) "tag"
  || (String.eqb (type c) "attribute" && negb (String.eqb (name c) "class")).

(** [rule.selectors[0][1]], when it is a pseudo component. *)
Definition pseudoComponent (rule : Rule) : option Component :=
  match selectors rule with
  | (_ :: second :: _) :: _ =>
      if String.eqb (type second) "pseudo" then Some second else None
  | _ => None
  end.

(** The class name under which a declaration of [rule] is emitted. *)
Definition encodedName (options : Options) (rule : Rule)
  (declaration : Declaration) : string :=
  let encodedClassName := encodeClassName options declaration in
  match pseudoComponent rule with
  | Some pseudo =>
      let pseudoName := name pseudo in
      encodedClassName ++ "___-" ++ JsString.toUpperCase pseudoName
        ++ ":" ++ pseudoName
  | None => encodedClassName
  end.

(** The body of [rule.declarations.forEach]. *)
Definition atomizeDeclaration (options : Options) (rule : Rule)
  (st : ClassMap * NewRules) (declaration : Declaration)
  : Completion (ClassMap * NewRules) :=
  let '(classMap, newRules) := st in
  let encodedClassName := encodedName options rule declaration in
  classMap <- updateClassMap classMap (selectors rule) encodedClassName ;;
  Normal (classMap,
          JsObject.set encodedClassName
            {| newSelectors := [[Some encodedClassName]];
               newDeclarations := [declaration] |}
            newRules).

(** The body of [parsed.stylesheet.rules.forEach]. *)
Definition atomizeRule (options : Options) (st : ClassMap * NewRules)
  (rule : Rule) : Completion (ClassMap * NewRules) :=
  let rule := RemovePosition.rule rule in
  first <- firstComponent rule ;;
  if isNonClass first then
    newRules <- handleNonClasses rule (snd st) ;;
    Normal (fst st, newRules)
  else
    forEach (declarations rule) (atomizeDeclaration options rule) st.
End Engine.

Section Uglify.
Context `{Collaborators}.

(** [arr.indexOf(x)] followed by [arr[i] = y] when the index is not -1. *)
Fixpoint replaceFirst (x y : string) (arr : list string) : list string :=
  match arr with
  | [] => []
  | z :: r => if String.eqb z x then y :: r else z :: replaceFirst x y r
  end.

(** [selectors[0][0] = name] on the array of arrays of a rule. *)
Definition setFirstSelector (uglifiedName : string) (rule : NewRule)
  : Completion NewRule :=
  match newSelectors rule with
  | [] => Throw TypeError
  | sel :: rest =>
      Normal {| newSelectors := (Some uglifiedName :: tl sel) :: rest;
                newDeclarations := newDeclarations rule |}
  end.

(** The body of the inner [Object.keys(classMap).forEach]: the closure
    variable [key] is reassigned at each turn. *)
Definition renameInClassMap (resultName : string)
  (st : string * ClassMap) (mapKey : string) : string * ClassMap :=
  let '(key, classMap) := st in
  let key := JsString.beforeColon key in
  match JsObject.get mapKey classMap with
  | Some arr =>
      (key, JsObject.set mapKey (replaceFirst key resultName arr) classMap)
  | None => (key, classMap)
  end.

(** [':' + split.join(':')] after [split.shift()], or [''] *)
Definition pseudoSuffix (key : string) : string :=
  if JsString.includes ":" key then
    let split := JsString.split ":" key in
    let split := tl split in
    ":" ++ JsString.join ":" split
  else "".

Record UglifyState : Type := {
  index : nat;
  uglyClassMap : ClassMap;
  uglyNewRules : NewRules
}.

(** The body of [Object.keys(newRules).forEach] in the uglifier pass.
    [newRules[uglifiedName]] and [newRules[key]] are one object until
    the old key is deleted. *)
Definition uglifyKey (st : UglifyState) (key : string)
  : Completion UglifyState :=
  if JsString.startsWith "." key then
    let pseudo := pseudoSuffix key in
    let result := cssUglifier (index st) in
    let uglifiedName := (fst result ++ pseudo)%string in
    match JsObject.get key (uglyNewRules st) with
    | None => Throw TypeError
    | Some rule =>
        rule' <- setFirstSelector uglifiedName rule ;;
        let newRules := JsObject.set uglifiedName rule' (uglyNewRules st) in
        let newRules := JsObject.delete key newRules in
        let classMap :=
          snd (fold_left (renameInClassMap (fst result))
                 (JsObject.keys (uglyClassMap st))
                 (key, uglyClassMap st)) in
        Normal {| index := snd result;
                  uglyClassMap := classMap;
                  uglyNewRules := newRules |}
    end
  else Normal st.

Definition uglifyPass (classMap : ClassMap) (newRules : NewRules)
  : Completion (ClassMap * NewRules) :=
  st <- forEach (JsObject.keys newRules) uglifyKey
          {| index := 0; uglyClassMap := classMap;
             uglyNewRules := newRules |} ;;
  Normal (uglyClassMap st, uglyNewRules st).
End Uglify.

Section Css.
Context `{Collaborators}.

Definition emptyResult : Result := {| classMap := []; output := "" |}.

(** The rules loop, the second position sweep, the deduplication and the
    optional uglifier pass: the class map and the table of new rules as
    they stand when the output is serialized. *)
Definition buildTables (options : Options) (parsedRules : list Rule)
  (uglify : bool) : Completion (ClassMap * NewRules) :=
  '(classMap, newRules) <-
    forEach parsedRules (atomizeRule options) ([], []) ;;
  let newRules := RemovePosition.newRules newRules in
  let classMap := removeIdenticalProperties classMap in
  if uglify then uglifyPass classMap newRules
  else Normal (classMap, newRules).

(** [output.stylesheet.rules], filled from [Object.keys(newRules)]. *)
Definition outputRules (newRules : NewRules) : list NewRule :=
  JsObject.values newRules.

(** Everything after the parse. *)
Definition atomize (options : Options) (parsedRules : list Rule)
  (uglify : bool) : Completion Result :=
  '(classMap, newRules) <- buildTables options parsedRules uglify ;;
  Normal {| classMap := classMap;
            output := cssStringify {| rules := outputRules newRules |} |}.

(** [input || ''] *)
Definition orEmpty (input : option string) : string :=
  match input with
  | Some s => s
  | None => ""
  end.

(** [css(options, input, uglify)], over the parser it is linked with.
    [input] is [None] for a falsy value that is not a string. *)
Definition cssWith
  (parser : Options -> string -> Logged (option (list Rule)))
  (options : Options) (input : option string) (uglify : bool)
  : Logged Result :=
  let input := orEmpty input in
  let '(log, completion) := parser options input in
  let '(log, parsed) :=
    match completion with
    | Normal parsed => (log, parsed)
    | Throw err =>
        (throwError (ReportError "Error parsing CSS" err) log, None)
    end in
  match parsed with
  | None =>
      (throwError (ReportInput "Error parsing CSS" input) log,
       Normal emptyResult)
  | Some parsedRules => (log, atomize options parsedRules uglify)
  end.

Definition css := cssWith cssParser.
Definition cssStripping := cssWith cssParserStripping.
End Css.

(** ** Vocabulary of the properties *)

(** The rule is printed under the selector [key]. *)
Definition ruleNamed (key : string) (r : NewRule) : bool :=
  match newSelectors r with
  | [[o]] => String.eqb (propertyKey o) key
  | _ => false
  end.

(** Every rule of the table has the single selector it is filed under. *)
Definition namedByKey (newRules : NewRules) : Prop :=
  Forall (fun kv => ruleNamed (fst kv) (snd kv) = true) newRules.

(** The state of the rules loop only grows: keys of the table stay, and
    the arrays of the class map are extended. *)
Definition grows (st st' : ClassMap * NewRules) : Prop :=
  incl (JsObject.keys (snd st)) (JsObject.keys (snd st')) /\
  forall k arr, JsObject.get k (fst st) = Some arr ->
    exists arr', JsObject.get k (fst st') = Some arr' /\ incl arr arr'.

(** A rule the engine atomizes: its first selector component exists and is
    not a tag or a non-class attribute. *)
Definition classTargeted (rule : Rule) : Prop :=
  exists first, firstComponent rule = Normal first /\ isNonClass first = false.

(** A rule the engine passes through. *)
Definition passthrough (rule : Rule) : Prop :=
  exists first, firstComponent rule = Normal first /\ isNonClass first = true.




(** A key of the table of new rules that the uglifier pass renames. *)
Definition classBased (key : string) : bool := JsString.startsWith "." key.

(** The tokens drawn for [n] keys when the counter stands at [i]: each
    draw continues from the counter the previous one returned. *)
Fixpoint drawTokens `{Collaborators} (n i : nat) : list string :=
  match n with
  | 0 => []
  | S n => fst (cssUglifier i) :: drawTokens n (snd (cssUglifier i))
  end.

(** The new name of a class name under a list of (old base key, token)
    pairs: the token of the first pair with that base key. *)
Definition renamed (pairs : list (string * string)) (v : string) : string :=
  match JsObject.get v pairs with
  | Some token => token
  | None => v
  end.

(** The renamings applied one after the other, as the pass does. *)
Definition renameInTurn (pairs : list (string * string))
  (arr : list string) : list string :=
  fold_left (fun arr pair => replaceFirst (fst pair) (snd pair) arr) pairs arr.

(** The entry of a class-based rule once it has drawn [token]. *)
Definition uglifiedEntry (entry : string * NewRule * string)
  : string * NewRule :=
  let '(key, rule, token) := entry in
  let uglifiedName := (token ++ pseudoSuffix key)%string in
  (uglifiedName,
   {| newSelectors := [[Some uglifiedName]];
      newDeclarations := newDeclarations rule |}).

(** The entries a rule files in the table of new rules, in order. *)
Definition filings `{Collaborators} (options : Options) (rule : Rule)
  : list (string * NewRule) :=
  match firstComponent rule with
  | Normal first =>
      if isNonClass first then
        [(propertyKey (original first),
          {| newSelectors := [[original first]];
             newDeclarations :=
               map RemovePosition.declaration (declarations rule) |})]
      else
        map (fun d =>
               let d' := RemovePosition.declaration d in
               let key := encodedName options (RemovePosition.rule rule) d' in
               (key, {| newSelectors := [[Some key]];
                        newDeclarations := [d'] |}))
          (declarations rule)
  | Throw _ => []
  end.

(** [selector[0].original] ([None] when there is no first component or it
    has no [original]). *)
Definition firstOriginal (sel : Selector) : option string :=
  match sel with
  | first :: _ => original first
  | [] => None
  end.

(** A name every plain object inherits from [Object.prototype]. *)
Definition inheritedName (text : string) : bool :=
  existsb (String.eqb text) objectPrototypeNames.

(** A selector [updateClassMap] gets through when the class map stands at
    [classMap]: it has a first component, that component has its
    [original] text, and the text, cut at its first [":"], is not the name
    of an inherited member of [classMap]. *)
Definition readableIn (classMap : ClassMap) (sel : Selector) : bool :=
  match firstOriginal sel with
  | Some o => negb (inheritedMember (JsString.beforeColon o) classMap)
  | None => false
  end.

(** A class map none of whose keys is an inherited name: the empty class
    map the engine starts with, and every class map it reaches. *)
Definition cleanMap (classMap : ClassMap) : Prop :=
  forall k, inheritedName k = true -> JsObject.get k classMap = None.

(** A selector [updateClassMap] gets through in such a class map. *)
Definition readable (sel : Selector) : bool :=
  match firstOriginal sel with
  | Some o => negb (inheritedName (JsString.beforeColon o))
  | None => false
  end.

(** The class map keys of a list of selectors: the [original] text of each
    first component, cut at its first [":"]. *)
Definition selectorTexts (sels : list Selector) : list string :=
  flat_map
    (fun sel =>
       match sel with
       | first :: _ =>
           match original first with
           | Some o => [JsString.beforeColon o]
           | None => []
           end
       | [] => []
       end)
    sels.

(** [classMap[k] = classMap[k] || []; classMap[k].push(v)] *)
Definition pushName (classMap : ClassMap) (kv : string * string) : ClassMap :=
  JsObject.set (fst kv)
    (match JsObject.get (fst kv) classMap with
     | Some arr => arr
     | None => []
     end ++ [snd kv])
    classMap.

(** The (selector text, class name) pairs a rule adds to the class map, in
    order: for each declaration, one pair per selector. *)
Definition namings `{Collaborators} (options : Options) (rule : Rule)
  : list (string * string) :=
  match firstComponent rule with
  | Normal first =>
      if isNonClass first then []
      else
        flat_map
          (fun d =>
             map (fun text =>
                    (text,
                     JsString.beforeColon
                       (encodedName options (RemovePosition.rule rule)
                          (RemovePosition.declaration d))))
               (selectorTexts (selectors rule)))
          (declarations rule)
  | Throw _ => []
  end.

(** The class names paired with the selector text [k], in order. *)
Definition namesOf (k : string) (pairs : list (string * string))
  : list string :=
  map snd (filter (fun kv => String.eqb (fst kv) k) pairs).

(** A rule the rules loop gets through without a [TypeError]: it has a
    first selector component, and it is passed through, or has no
    declaration, or [updateClassMap] gets through each of its selectors. *)
Definition atomizable (rule : Rule) : bool :=
  match firstComponent rule with
  | Normal first =>
      isNonClass first
      || match declarations rule with
         | [] => true
         | _ :: _ => forallb readable (selectors rule)
         end
  | Throw _ => false
  end.

(** [newRules[key] = rule] *)
Definition fileEntry (newRules : NewRules) (kv : string * NewRule)
  : NewRules :=
  JsObject.set (fst kv) (snd kv) newRules.

(** What the engine reads of a component besides [original]. *)
Definition kindOf (c : Component) : string * string := (type c, name c).

Definition isDigit (c : ascii) : bool :=
  let n := nat_of_ascii c in ((48 <=? n)%nat && (n <=? 57)%nat)%bool.

Fixpoint digitsOnly (s : string) : bool :=
  match s with
  | EmptyString => true
  | String c r => isDigit c && digitsOnly r
  end.

(** A key written with decimal digits only.  The array indices are among
    these keys, and [Object.keys] lists the array indices of an object
    first, in ascending order, whenever they were assigned. *)
Definition indexLike (k : string) : bool :=
  negb (String.eqb k "") && digitsOnly k.

(** A key under which the association list is the table of new rules the
    engine holds: it is not index-like; it is not ["__proto__"], to which
    an assignment sets the prototype of the table and adds no entry; it is
    not ["position"], the entry the second position sweep deletes from the
    table; and it is not ["hasOwnProperty"], an entry that shadows the
    method the sweep calls on the table, which then throws. *)
Definition tableKey (k : string) : bool :=
  negb (indexLike k)
  && negb (String.eqb k "__proto__")
  && negb (String.eqb k "position")
  && negb (String.eqb k "hasOwnProperty").

(** ** Sample collaborators

    Small stand-ins for the required modules, used to run the engine on
    concrete stylesheets. *)

Module Sample.

Definition at_ (l c l' c' : nat) : option Position :=
  Some {| startLine := l; startColumn := c; endLine := l'; endColumn := c' |}.

Definition decl (p v : string) (pos : option Position) : Declaration :=
  {| property := p; value := v; declarationPosition := pos |}.

Definition raw (sels : list string) (ds : list Declaration)
  (pos : option Position) : RawRule :=
  {| rawSelectors := Some sels; rawDeclarations := ds; rawPosition := pos |}.

(** The stylesheets the sample [css.parse] knows. *)
Definition sheets : list (string * list RawRule) :=
  [ (".a:hover { color:red; }",
     [raw [".a:hover"] [decl "color" "red" (at_ 1 12 1 21)] (at_ 1 1 1 24)]);
    ("h1, h2 { color:red; }",
     [raw ["h1"; "h2"] [decl "color" "red" (at_ 1 10 1 19)] (at_ 1 1 1 22)]);
    (".a { color:red; } .b { color:red; }",
     [raw [".a"] [decl "color" "red" (at_ 1 6 1 15)] (at_ 1 1 1 18);
      raw [".b"] [decl "color" "red" (at_ 1 24 1 33)] (at_ 1 19 1 36)]);
    ("div { color:red; } div { margin:0; }",
     [raw ["div"] [decl "color" "red" (at_ 1 7 1 16)] (at_ 1 1 1 19);
      raw ["div"] [decl "margin" "0" (at_ 1 26 1 34)] (at_ 1 20 1 37)]);
    (".a { color:red; color:red; }",
     [raw [".a"] [decl "color" "red" (at_ 1 6 1 15);
                  decl "color" "red" (at_ 1 17 1 26)] (at_ 1 1 1 29)]);
    (".a { color:red; margin:0; } .b:hover { color:red; } p { margin:0; }",
     [raw [".a"] [decl "color" "red" (at_ 1 6 1 15);
                  decl "margin" "0" (at_ 1 17 1 25)] (at_ 1 1 1 28);
      raw [".b:hover"] [decl "color" "red" (at_ 1 40 1 49)] (at_ 1 29 1 52);
      raw ["p"] [decl "margin" "0" (at_ 1 57 1 65)] (at_ 1 53 1 68)]) ].

(** In silent mode a text that does not parse yields an empty rule list;
    otherwise [css.parse] throws. *)
Definition parse (input : string) (silent : bool)
  : Completion (option (list RawRule)) :=
  match JsObject.get input sheets with
  | Some rawRules => Normal (Some rawRules)
  | None => if silent then Normal (Some []) else Throw (Thrown "parse error")
  end.

Definition component (text : string) : Selector :=
  let base := JsString.beforeColon text in
  let first :=
    if JsString.startsWith "." base then
      {| type := "attribute"; name := "class"; original := None |}
    else if JsString.startsWith "#" base then
      {| type := "attribute"; name := "id"; original := None |}
    else {| type := "tag"; name := base; original := None |} in
  if JsString.includes ":" text then
    [first;
     {| type := "pseudo";
        name := JsString.join ":" (tl (JsString.split ":" text));
        original := None |}]
  else [first].

Definition parseSelector (text : string) : Completion (list Selector) :=
  Normal (map component (JsString.split "," text)).

Definition encode (_ : bool) (d : Declaration) : string :=
  ".rp__" ++ property d ++ "__--COLON" ++ value d.

Definition uglifier (index : nat) : string * nat :=
  ((".rp__" ++ NilEmpty.string_of_uint (Nat.to_uint index))%string,
   S index).

Definition declarationText (d : Declaration) : string :=
  property d ++ ":" ++ value d ++ ";".

Definition ruleText (r : NewRule) : string :=
  JsString.join ","
    (map (fun sel => JsString.join " " (map (fun o => match o with Some n => n | None => "undefined" end) sel))
       (newSelectors r))
  ++ "{" ++ JsString.join "" (map declarationText (newDeclarations r))
  ++ "}".

Definition stringify (sheet : Stylesheet) : string :=
  JsString.join "" (map ruleText (rules sheet)).

Definition collaborators : Collaborators :=
  {| Options := bool;
     verbose := fun options => options;
     cssParse := parse;
     selectorParse := parseSelector;
     encodeClassName := encode;
     cssUglifier := uglifier;
     cssStringify := stringify |}.

(** What the parser returns for [".a:hover { color:red; }"]. *)
Definition hoverRule : Rule :=
  {| selectors :=
       [[ {| type := "attribute"; name := "class";
             original := Some ".a:hover" |};
          {| type := "pseudo"; name := "hover"; original := None |} ]];
     declarations := [decl "color" "red" (at_ 1 12 1 21)];
     rulePosition := at_ 1 1 1 24 |}.

(** A selector of one class component with its [original] text. *)
Definition classSelector (text : string) : Selector :=
  [{| type := "attribute"; name := "class"; original := Some text |}].

(** The rules the sample parser returns for a text it knows. *)
Definition parsed (text : string) : list Rule :=
  match snd (@cssParser collaborators true text) with
  | Normal (Some parsedRules) => parsedRules
  | _ => []
  end.

Definition isDigit (c : ascii) : bool :=
  let n := nat_of_ascii c in ((48 <=? n)%nat && (n <=? 57)%nat)%bool.

Fixpoint allDigits (s : string) : bool :=
  match s with
  | EmptyString => true
  | String c r => isDigit c && allDigits r
  end.
End Sample.

(** ** A stylesheet with a comment *)

Module CommentSample.

(** The nodes of [/* note */ .a { color:red; }]: the comment has no
    selectors. *)
Definition nodes : list RawRule :=
  [ {| rawSelectors := None; rawDeclarations := [];
       rawPosition := Sample.at_ 1 1 1 11 |};
    Sample.raw [".a"] [Sample.decl "color" "red" (Sample.at_ 1 17 1 26)]
      (Sample.at_ 1 12 1 29) ].

Definition parse (input : string) (silent : bool)
  : Completion (option (list RawRule)) :=
  if String.eqb input "/* note */ .a { color:red; }" then Normal (Some nodes)
  else Sample.parse input silent.

Definition collaborators : Collaborators :=
  {| Options := bool;
     verbose := fun options => options;
     cssParse := parse;
     selectorParse := Sample.parseSelector;
     encodeClassName := Sample.encode;
     cssUglifier := Sample.uglifier;
     cssStringify := Sample.stringify |}.
End CommentSample.

(** * Properties *)

(** ** JS strings and objects *)

Lemma existsb_eqb_In (x : string) (l : list string) :
  existsb (String.eqb x) l = true <-> In x l.
Proof.
  rewrite existsb_exists. split.
  - intros [y [Hy Heq]]. apply String.eqb_eq in Heq. now subst.
  - intros Hin. exists x. split; [assumption | apply String.eqb_refl].
Qed.

Lemma existsb_eqb_not_In (x : string) (l : list string) :
  existsb (String.eqb x) l = false <-> ~ In x l.
Proof.
  rewrite <- existsb_eqb_In. destruct (existsb (String.eqb x) l); intuition congruence.
Qed.

Lemma existsb_eqb_ext (x : string) (l l' : list string) :
  (forall y, In y l <-> In y l') ->
  existsb (String.eqb x) l = existsb (String.eqb x) l'.
Proof.
  intros Hiff.
  destruct (existsb (String.eqb x) l') eqn:E.
  - apply existsb_eqb_In. apply Hiff. now apply existsb_eqb_In.
  - apply existsb_eqb_not_In. rewrite Hiff. now apply existsb_eqb_not_In.
Qed.

(** ** The deduplication of one array *)

Lemma Set_add_In (s : list string) (x y : string) :
  In y (Set_add s x) <-> y = x \/ In y s.
Proof.
  unfold Set_add. destruct (existsb (String.eqb x) s) eqn:E.
  - apply existsb_eqb_In in E. intuition (subst; assumption).
  - rewrite in_app_iff. simpl. intuition (subst; auto).
Qed.

Lemma fold_Set_add_In (l s : list string) (y : string) :
  In y (fold_left Set_add l s) <-> In y l \/ In y s.
Proof.
  revert s. induction l as [| x l IH]; intros s; simpl.
  - tauto.
  - rewrite IH, Set_add_In. intuition (subst; auto).
Qed.

Lemma Set_from_In (l : list string) (y : string) :
  In y (Set_from l) <-> In y l.
Proof.
  unfold Set_from. rewrite fold_Set_add_In. simpl. tauto.
Qed.

Lemma uniqueFromEnd_cons (x : string) (r : list string) :
  uniqueFromEnd (x :: r) =
  if existsb (String.eqb x) r then uniqueFromEnd r else x :: uniqueFromEnd r.
Proof.
  unfold uniqueFromEnd, Set_from. simpl rev.
  rewrite fold_left_app. simpl. unfold Set_add at 1.
  fold (Set_from (rev r)).
  rewrite (existsb_eqb_ext x (Set_from (rev r)) r).
  - destruct (existsb (String.eqb x) r); [reflexivity |].
    rewrite rev_app_distr. reflexivity.
  - intros y. rewrite Set_from_In. symmetry. apply in_rev.
Qed.

Lemma uniqueFromEnd_keepLast (arr : list string) :
  uniqueFromEnd arr = keepLastOccurrences arr.
Proof.
  induction arr as [| x r IH].
  - reflexivity.
  - rewrite uniqueFromEnd_cons. simpl. now rewrite IH.
Qed.

Lemma keepLast_In (l : list string) (y : string) :
  In y (keepLastOccurrences l) <-> In y l.
Proof.
  induction l as [| x r IH]; simpl; [tauto |].
  destruct (existsb (String.eqb x) r) eqn:E.
  - apply existsb_eqb_In in E. rewrite IH. intuition (subst; assumption).
  - simpl. rewrite IH. tauto.
Qed.

Lemma keepLast_NoDup (l : list string) : NoDup (keepLastOccurrences l).
Proof.
  induction l as [| x r IH]; simpl; [constructor |].
  destruct (existsb (String.eqb x) r) eqn:E; [assumption |].
  constructor; [| assumption].
  rewrite keepLast_In. now apply existsb_eqb_not_In.
Qed.

Lemma keepLast_fixed (l : list string) :
  NoDup l -> keepLastOccurrences l = l.
Proof.
  induction 1 as [| x r Hx Hr IH]; simpl; [reflexivity |].
  apply existsb_eqb_not_In in Hx. rewrite Hx. now rewrite IH.
Qed.

Lemma keepLast_repeat (x : string) (n : nat) :
  keepLastOccurrences (repeat x (S n)) = [x].
Proof.
  induction n as [| n IH].
  - reflexivity.
  - change (repeat x (S (S n))) with (x :: repeat x (S n)).
    cbn [keepLastOccurrences].
    replace (existsb (String.eqb x) (repeat x (S n))) with true; [exact IH |].
    symmetry. apply existsb_eqb_In. simpl. now left.
Qed.

(** The entry of a value sits where the value occurs last: what precedes
    it comes from before that occurrence, what follows it from after. *)
Lemma keepLast_split (before after : list string) (x : string) :
  ~ In x after ->
  keepLastOccurrences (before ++ x :: after) =
  filter (fun y => negb (existsb (String.eqb y) (x :: after)))
    (keepLastOccurrences before)
  ++ x :: keepLastOccurrences after.
Proof.
  intros Hx. induction before as [| b before IH].
  - simpl. apply existsb_eqb_not_In in Hx. now rewrite Hx.
  - cbn [app keepLastOccurrences].
    destruct (existsb (String.eqb b) before) eqn:Eb.
    + replace (existsb (String.eqb b) (before ++ x :: after)) with true.
      * exact IH.
      * symmetry. apply existsb_eqb_In. apply in_or_app. left.
        now apply existsb_eqb_In.
    + destruct (existsb (String.eqb b) (x :: after)) eqn:Ea.
      * replace (existsb (String.eqb b) (before ++ x :: after)) with true.
        -- rewrite IH. cbn [filter]. now rewrite Ea.
        -- symmetry. apply existsb_eqb_In. apply in_or_app. right.
           now apply existsb_eqb_In.
      * replace (existsb (String.eqb b) (before ++ x :: after)) with false.
        -- rewrite IH. cbn [filter]. now rewrite Ea.
        -- symmetry. apply existsb_eqb_not_In. intros Hin.
           apply in_app_or in Hin. destruct Hin as [Hin | Hin].
           ++ apply existsb_eqb_not_In in Eb. contradiction.
           ++ apply existsb_eqb_not_In in Ea. contradiction.
Qed.

(** ** Objects as ordered maps *)

Section ObjectFacts.
Context {V : Type}.
Implicit Types (o : JsObject.t V) (k : string) (v : V).

Lemma get_set o k v k' :
  JsObject.get k' (JsObject.set k v o) =
  if String.eqb k k' then Some v else JsObject.get k' o.
Proof.
  induction o as [| [k0 v0] o IH]; simpl.
  - reflexivity.
  - destruct (String.eqb k0 k) eqn:E0; simpl.
    + apply String.eqb_eq in E0. subst k0.
      destruct (String.eqb k k'); reflexivity.
    + rewrite IH. destruct (String.eqb k0 k') eqn:E1; [| reflexivity].
      apply String.eqb_eq in E1. subst k0. now rewrite String.eqb_sym, E0.
Qed.

Lemma get_None o k : JsObject.get k o = None <-> ~ In k (JsObject.keys o).
Proof.
  induction o as [| [k0 v0] o IH]; simpl.
  - tauto.
  - destruct (String.eqb k0 k) eqn:E0.
    + apply String.eqb_eq in E0. split; [discriminate | intuition].
    + apply String.eqb_neq in E0. rewrite IH. tauto.
Qed.

Lemma get_Some_In o k v : JsObject.get k o = Some v -> In k (JsObject.keys o).
Proof.
  intros Hget. destruct (in_dec string_dec k (JsObject.keys o)) as [Hin | Hin].
  - assumption.
  - apply get_None in Hin. congruence.
Qed.

Lemma keys_set o k v :
  JsObject.keys (JsObject.set k v o) =
  if existsb (String.eqb k) (JsObject.keys o) then JsObject.keys o
  else JsObject.keys o ++ [k].
Proof.
  induction o as [| [k0 v0] o IH]; simpl.
  - reflexivity.
  - rewrite (String.eqb_sym k k0).
    destruct (String.eqb k0 k) eqn:E0; simpl; [reflexivity |].
    fold (JsObject.keys (JsObject.set k v o)). rewrite IH.
    fold (JsObject.keys o).
    destruct (existsb (String.eqb k) (JsObject.keys o)); reflexivity.
Qed.

Lemma keys_set_present o k v :
  In k (JsObject.keys o) ->
  JsObject.keys (JsObject.set k v o) = JsObject.keys o.
Proof.
  intros Hin. rewrite keys_set.
  apply existsb_eqb_In in Hin. now rewrite Hin.
Qed.

Lemma wf_set o k v : JsObject.wf o -> JsObject.wf (JsObject.set k v o).
Proof.
  unfold JsObject.wf. intros Hwf. rewrite keys_set.
  destruct (existsb (String.eqb k) (JsObject.keys o)) eqn:E; [assumption |].
  apply existsb_eqb_not_In in E.
  apply NoDup_rev in Hwf.
  rewrite <- (rev_involutive (JsObject.keys o ++ [k])).
  apply NoDup_rev. rewrite rev_app_distr. simpl.
  constructor; [| assumption]. now rewrite <- in_rev.
Qed.
End ObjectFacts.

(** ** The deduplication of the class map *)

Lemma uniqueFromEnd_idempotent (arr : list string) :
  uniqueFromEnd (uniqueFromEnd arr) = uniqueFromEnd arr.
Proof.
  rewrite (uniqueFromEnd_keepLast (uniqueFromEnd arr)).
  apply keepLast_fixed. rewrite uniqueFromEnd_keepLast. apply keepLast_NoDup.
Qed.

Lemma dedupEntry_keys (cm : ClassMap) (selector : string) :
  JsObject.keys (dedupEntry cm selector) = JsObject.keys cm.
Proof.
  unfold dedupEntry. destruct (JsObject.get selector cm) eqn:E; [| reflexivity].
  apply keys_set_present. eapply get_Some_In. eassumption.
Qed.

Lemma dedupEntry_get (cm : ClassMap) (selector k : string) :
  JsObject.get k (dedupEntry cm selector) =
  if String.eqb selector k then option_map uniqueFromEnd (JsObject.get k cm)
  else JsObject.get k cm.
Proof.
  unfold dedupEntry. destruct (JsObject.get selector cm) eqn:E.
  - rewrite get_set. destruct (String.eqb selector k) eqn:Ek; [| reflexivity].
    apply String.eqb_eq in Ek. subst k. now rewrite E.
  - destruct (String.eqb selector k) eqn:Ek; [| reflexivity].
    apply String.eqb_eq in Ek. subst k. now rewrite E.
Qed.

Lemma fold_dedupEntry_keys (ks : list string) (cm : ClassMap) :
  JsObject.keys (fold_left dedupEntry ks cm) = JsObject.keys cm.
Proof.
  revert cm. induction ks as [| s ks IH]; intros cm; simpl.
  - reflexivity.
  - rewrite IH. apply dedupEntry_keys.
Qed.

Lemma fold_dedupEntry_get (ks : list string) (cm : ClassMap) (k : string) :
  JsObject.get k (fold_left dedupEntry ks cm) =
  if existsb (String.eqb k) ks
  then option_map uniqueFromEnd (JsObject.get k cm)
  else JsObject.get k cm.
Proof.
  revert cm. induction ks as [| s ks IH]; intros cm; simpl.
  - reflexivity.
  - rewrite IH, dedupEntry_get, (String.eqb_sym k s).
    destruct (String.eqb s k), (existsb (String.eqb k) ks); simpl;
      try reflexivity.
    destruct (JsObject.get k cm); simpl; [| reflexivity].
    now rewrite uniqueFromEnd_idempotent.
Qed.

Lemma removeIdenticalProperties_keys (cm : ClassMap) :
  JsObject.keys (removeIdenticalProperties cm) = JsObject.keys cm.
Proof. apply fold_dedupEntry_keys. Qed.

Lemma removeIdenticalProperties_get (cm : ClassMap) (k : string) :
  JsObject.get k (removeIdenticalProperties cm) =
  option_map uniqueFromEnd (JsObject.get k cm).
Proof.
  unfold removeIdenticalProperties.
  rewrite fold_dedupEntry_get.
  destruct (existsb (String.eqb k) (JsObject.keys cm)) eqn:E; [reflexivity |].
  apply existsb_eqb_not_In in E. apply get_None in E. now rewrite E.
Qed.

(** C1. [removeIdenticalProperties] keeps the keys of the class map and
    replaces the array of every selector by a new array in which each
    distinct value occurs exactly once, at the place of its last occurrence
    in the old array: a value stays exactly when it does not occur again
    later, so the values are listed in the order of their last occurrences.
    An array of [n >= 1] copies of one value becomes a single entry, and an
    array of pairwise distinct values is returned as it is. *)
Theorem C1_removeIdenticalProperties_last_occurrence :
  forall (cm : ClassMap) (selector : string),
    JsObject.keys (removeIdenticalProperties cm) = JsObject.keys cm /\
    JsObject.get selector (removeIdenticalProperties cm) =
      option_map uniqueFromEnd (JsObject.get selector cm) /\
    forall arr : list string,
      uniqueFromEnd arr = keepLastOccurrences arr /\
      NoDup (uniqueFromEnd arr) /\
      (forall x, In x (uniqueFromEnd arr) <-> In x arr) /\
      (forall before x after,
          arr = before ++ x :: after -> ~ In x after ->
          uniqueFromEnd arr =
            filter (fun y => negb (existsb (String.eqb y) (x :: after)))
              (uniqueFromEnd before)
            ++ x :: uniqueFromEnd after) /\
      (forall x n, arr = repeat x (S n) -> uniqueFromEnd arr = [x]) /\
      (NoDup arr -> uniqueFromEnd arr = arr).
Proof.
  intros cm selector.
  split; [apply removeIdenticalProperties_keys |].
  split; [apply removeIdenticalProperties_get |].
  intros arr. repeat split.
  - apply uniqueFromEnd_keepLast.
  - rewrite uniqueFromEnd_keepLast. apply keepLast_NoDup.
  - rewrite uniqueFromEnd_keepLast. apply keepLast_In.
  - rewrite uniqueFromEnd_keepLast. apply keepLast_In.
  - intros before x after -> Hx.
    rewrite !uniqueFromEnd_keepLast. now apply keepLast_split.
  - intros x n ->. rewrite uniqueFromEnd_keepLast. apply keepLast_repeat.
  - intros Hnd. rewrite uniqueFromEnd_keepLast. now apply keepLast_fixed.
Qed.

(** ** Loops *)

Lemma forEach_app {A S : Type} (l1 l2 : list A)
  (body : S -> A -> Completion S) (s : S) :
  forEach (l1 ++ l2) body s = (s1 <- forEach l1 body s ;; forEach l2 body s1).
Proof.
  revert s. induction l1 as [| x l1 IH]; intros s; simpl.
  - reflexivity.
  - destruct (body s x) as [s' | e]; simpl; [apply IH | reflexivity].
Qed.

Lemma forEach_split {A S : Type} (l1 l2 : list A) (x : A)
  (body : S -> A -> Completion S) (s s' : S) :
  forEach (l1 ++ x :: l2) body s = Normal s' ->
  exists s1 s2,
    forEach l1 body s = Normal s1 /\ body s1 x = Normal s2 /\
    forEach l2 body s2 = Normal s'.
Proof.
  rewrite forEach_app. intros Hrun.
  destruct (forEach l1 body s) as [s1 | e]; simpl in Hrun; [| discriminate].
  destruct (body s1 x) as [s2 | e] eqn:Hx; simpl in Hrun; [| discriminate].
  exists s1, s2. auto.
Qed.

Lemma forEach_rel {A S : Type} (R : S -> S -> Prop)
  (body : S -> A -> Completion S) (l : list A) :
  (forall s, R s s) ->
  (forall s1 s2 s3, R s1 s2 -> R s2 s3 -> R s1 s3) ->
  (forall s x s', In x l -> body s x = Normal s' -> R s s') ->
  forall s s', forEach l body s = Normal s' -> R s s'.
Proof.
  intros Hrefl Htrans. induction l as [| x l IH]; intros Hstep s s' Hrun.
  - simpl in Hrun. inversion Hrun. apply Hrefl.
  - simpl in Hrun. destruct (body s x) as [s1 | e] eqn:Hx; simpl in Hrun;
      [| discriminate].
    apply Htrans with s1.
    + apply (Hstep s x s1); [now left | assumption].
    + apply IH; [| assumption].
      intros t y t' Hy. apply Hstep. now right.
Qed.

Lemma forEach_invariant {A S : Type} (P : S -> Prop)
  (body : S -> A -> Completion S) (l : list A) :
  (forall s x s', In x l -> P s -> body s x = Normal s' -> P s') ->
  forall s s', P s -> forEach l body s = Normal s' -> P s'.
Proof.
  induction l as [| x l IH]; intros Hstep s s' Hs Hrun.
  - simpl in Hrun. inversion Hrun. now subst.
  - simpl in Hrun. destruct (body s x) as [s1 | e] eqn:Hx; simpl in Hrun;
      [| discriminate].
    apply (IH (fun t y t' Hy => Hstep t y t' (or_intror Hy)) s1 s');
      [| assumption].
    apply (Hstep s x s1); [now left | assumption | assumption].
Qed.

Lemma grows_refl (st : ClassMap * NewRules) : grows st st.
Proof.
  split; [apply incl_refl |].
  intros k arr Hget. exists arr. split; [assumption | apply incl_refl].
Qed.

Lemma grows_trans (s1 s2 s3 : ClassMap * NewRules) :
  grows s1 s2 -> grows s2 s3 -> grows s1 s3.
Proof.
  intros [Hk12 Hc12] [Hk23 Hc23]. split.
  - eapply incl_tran; eassumption.
  - intros k arr Hget.
    destruct (Hc12 k arr Hget) as [arr2 [Hget2 Hincl2]].
    destruct (Hc23 k arr2 Hget2) as [arr3 [Hget3 Hincl3]].
    exists arr3. split; [assumption | eapply incl_tran; eassumption].
Qed.

(** ** The rules loop *)

Section EngineFacts.
Context `{Collaborators}.

Lemma updateClassMap_cons (cm : ClassMap) (sel : Selector)
  (sels : list Selector) (enc : string) (cm' : ClassMap) :
  updateClassMap cm (sel :: sels) enc = Normal cm' ->
  exists first rest o,
    sel = first :: rest /\ original first = Some o /\
    updateClassMap
      (JsObject.set (JsString.beforeColon o)
         (match JsObject.get (JsString.beforeColon o) cm with
          | Some arr => arr
          | None => []
          end ++ [JsString.beforeColon enc]) cm)
      sels enc = Normal cm'.
Proof.
  unfold updateClassMap. simpl.
  destruct sel as [| first rest]; simpl; [discriminate |].
  destruct (original first) as [o |] eqn:Ho; simpl; [| discriminate].
  destruct (inheritedMember (JsString.beforeColon o) cm); simpl;
    [discriminate |].
  intros Hrun. exists first, rest, o.
  split; [reflexivity |]. split; [exact Ho |]. exact Hrun.
Qed.

Lemma updateClassMap_grows (sels : list Selector) (enc : string) :
  forall cm cm', updateClassMap cm sels enc = Normal cm' ->
  forall k arr, JsObject.get k cm = Some arr ->
    exists arr', JsObject.get k cm' = Some arr' /\ incl arr arr'.
Proof.
  induction sels as [| sel sels IH]; intros cm cm' Hrun k arr Hget.
  - inversion Hrun. subst. exists arr. split; [assumption | apply incl_refl].
  - apply updateClassMap_cons in Hrun.
    destruct Hrun as [first [rest [o [_ [_ Hrun]]]]].
    destruct (String.eqb (JsString.beforeColon o) k) eqn:Ek.
    + apply String.eqb_eq in Ek. subst k. rewrite Hget in Hrun.
      destruct (IH _ _ Hrun (JsString.beforeColon o)
                  (arr ++ [JsString.beforeColon enc])) as [arr' [Hg Hi]].
      * rewrite get_set, String.eqb_refl. reflexivity.
      * exists arr'. split; [assumption |].
        intros x Hx. apply Hi. apply in_or_app. now left.
    + apply (IH _ _ Hrun k arr). rewrite get_set, Ek. assumption.
Qed.

Lemma updateClassMap_records (sels : list Selector) (enc : string) :
  forall cm cm', updateClassMap cm sels enc = Normal cm' ->
  forall sel, In sel sels ->
    exists first rest o arr,
      sel = first :: rest /\ original first = Some o /\
      JsObject.get (JsString.beforeColon o) cm' = Some arr /\
      In (JsString.beforeColon enc) arr.
Proof.
  induction sels as [| sel0 sels IH]; intros cm cm' Hrun sel Hin.
  - contradiction.
  - apply updateClassMap_cons in Hrun.
    destruct Hrun as [first [rest [o [Hsel [Ho Hrun]]]]].
    destruct Hin as [<- | Hin].
    + destruct (updateClassMap_grows _ _ _ _ Hrun (JsString.beforeColon o)
                  (match JsObject.get (JsString.beforeColon o) cm with
                   | Some arr => arr
                   | None => []
                   end ++ [JsString.beforeColon enc])) as [arr' [Hg Hi]].
      * rewrite get_set, String.eqb_refl. reflexivity.
      * exists first, rest, o, arr'. repeat split; try assumption.
        apply Hi. apply in_or_app. right. now left.
    + apply (IH _ _ Hrun sel Hin).
Qed.

Lemma atomizeDeclaration_inv (options : Options) (rule : Rule)
  (cm : ClassMap) (nr : NewRules) (d : Declaration)
  (st' : ClassMap * NewRules) :
  atomizeDeclaration options rule (cm, nr) d = Normal st' ->
  exists cm',
    updateClassMap cm (selectors rule) (encodedName options rule d)
      = Normal cm' /\
    st' = (cm',
           JsObject.set (encodedName options rule d)
             {| newSelectors := [[Some (encodedName options rule d)]];
                newDeclarations := [d] |} nr).
Proof.
  unfold atomizeDeclaration.
  destruct (updateClassMap cm (selectors rule) (encodedName options rule d))
    as [cm' | e]; simpl; [| discriminate].
  intros Hrun. inversion Hrun. exists cm'. auto.
Qed.

Lemma keys_set_incl {V : Type} (o : JsObject.t V) (k : string) (v : V) :
  incl (JsObject.keys o) (JsObject.keys (JsObject.set k v o)).
Proof.
  rewrite keys_set.
  destruct (existsb (String.eqb k) (JsObject.keys o));
    [apply incl_refl | apply incl_appl, incl_refl].
Qed.


Lemma atomizeDeclaration_grows (options : Options) (rule : Rule)
  (st st' : ClassMap * NewRules) (d : Declaration) :
  atomizeDeclaration options rule st d = Normal st' -> grows st st'.
Proof.
  destruct st as [cm nr]. intros Hrun.
  apply atomizeDeclaration_inv in Hrun. destruct Hrun as [cm' [Hcm ->]].
  split; simpl.
  - apply keys_set_incl.
  - eapply updateClassMap_grows. eassumption.
Qed.

Lemma atomizeRule_inv (options : Options) (st st' : ClassMap * NewRules)
  (rule : Rule) :
  atomizeRule options st rule = Normal st' ->
  exists first,
    firstComponent rule = Normal first /\
    if isNonClass first then
      st' = (fst st,
             JsObject.set (propertyKey (original first))
               {| newSelectors := [[original first]];
                  newDeclarations :=
                    map RemovePosition.declaration (declarations rule) |}
               (snd st))
    else
      forEach (map RemovePosition.declaration (declarations rule))
        (atomizeDeclaration options (RemovePosition.rule rule)) st
      = Normal st'.
Proof.
  unfold atomizeRule, handleNonClasses.
  change (firstComponent (RemovePosition.rule rule))
    with (firstComponent rule).
  destruct (firstComponent rule) as [first | e]; simpl; [| discriminate].
  intros Hrun. exists first. split; [reflexivity |].
  destruct (isNonClass first); [| exact Hrun].
  inversion Hrun. reflexivity.
Qed.

Lemma atomizeRule_grows (options : Options) (st st' : ClassMap * NewRules)
  (rule : Rule) :
  atomizeRule options st rule = Normal st' -> grows st st'.
Proof.
  intros Hrun. apply atomizeRule_inv in Hrun.
  destruct Hrun as [first [_ Hrun]].
  destruct (isNonClass first).
  - subst st'. split; simpl.
    + apply keys_set_incl.
    + intros k arr Hget. exists arr. split; [assumption | apply incl_refl].
  - revert Hrun. apply forEach_rel.
    + apply grows_refl.
    + apply grows_trans.
    + intros s x s' _. apply atomizeDeclaration_grows.
Qed.

Lemma rulesLoop_grows (options : Options) (parsedRules : list Rule)
  (st st' : ClassMap * NewRules) :
  forEach parsedRules (atomizeRule options) st = Normal st' -> grows st st'.
Proof.
  apply forEach_rel.
  - apply grows_refl.
  - apply grows_trans.
  - intros s x s' _. apply atomizeRule_grows.
Qed.
End EngineFacts.

Section TableFacts.
Context `{Collaborators}.

(** Each declaration of a class-targeted rule is atomized at some point
    of the loop, and the state only grows before and after. *)
Lemma rulesLoop_declaration (options : Options) (parsedRules : list Rule)
  (st st' : ClassMap * NewRules) (rule : Rule) (d : Declaration) :
  forEach parsedRules (atomizeRule options) st = Normal st' ->
  In rule parsedRules -> classTargeted rule -> In d (declarations rule) ->
  exists sa sb,
    atomizeDeclaration options (RemovePosition.rule rule) sa
      (RemovePosition.declaration d) = Normal sb /\
    grows st sa /\ grows sb st'.
Proof.
  intros Hrun Hrule [first [Hfirst Hclass]] Hd.
  apply in_split in Hrule. destruct Hrule as [l1 [l2 ->]].
  apply forEach_split in Hrun.
  destruct Hrun as [s1 [s2 [Hpre [Hstep Hpost]]]].
  apply rulesLoop_grows in Hpre. apply rulesLoop_grows in Hpost.
  apply atomizeRule_inv in Hstep. destruct Hstep as [first' [Hfirst' Hstep]].
  rewrite Hfirst in Hfirst'. inversion Hfirst'. subst first'.
  rewrite Hclass in Hstep.
  apply (in_map RemovePosition.declaration) in Hd.
  apply in_split in Hd. destruct Hd as [d1 [d2 Hd]].
  rewrite Hd in Hstep. apply forEach_split in Hstep.
  destruct Hstep as [sa [sb [Hda [Hdd Hdb]]]].
  exists sa, sb. split; [assumption |]. split.
  - apply grows_trans with s1; [assumption |].
    revert Hda. apply forEach_rel;
      [apply grows_refl | apply grows_trans |].
    intros s x s' _. apply atomizeDeclaration_grows.
  - apply grows_trans with s2; [| assumption].
    revert Hdb. apply forEach_rel;
      [apply grows_refl | apply grows_trans |].
    intros s x s' _. apply atomizeDeclaration_grows.
Qed.

Lemma namedByKey_set (nr : NewRules) (k : string) (r : NewRule) :
  namedByKey nr -> ruleNamed k r = true -> namedByKey (JsObject.set k r nr).
Proof.
  unfold namedByKey. intros Hnr Hr.
  induction nr as [| [k0 r0] nr IH]; simpl.
  - constructor; [assumption | constructor].
  - inversion Hnr as [| ? ? Hhead Htail]. subst.
    destruct (String.eqb k0 k) eqn:E.
    + apply String.eqb_eq in E. subst k0. constructor; assumption.
    + constructor; [assumption | now apply IH].
Qed.

Lemma namedByKey_output (nr : NewRules) (k : string) :
  namedByKey nr -> In k (JsObject.keys nr) ->
  exists r, In r (outputRules nr) /\ ruleNamed k r = true.
Proof.
  unfold namedByKey, outputRules, JsObject.keys, JsObject.values.
  intros Hnr Hin. apply in_map_iff in Hin. destruct Hin as [[k0 r] [Hk Hin]].
  simpl in Hk. subst k0. exists r. split.
  - apply in_map_iff. exists (k, r). auto.
  - rewrite Forall_forall in Hnr. apply (Hnr (k, r) Hin).
Qed.

Lemma ruleNamed_atomic (key : string) (ds : list Declaration) :
  ruleNamed key {| newSelectors := [[Some key]]; newDeclarations := ds |}
  = true.
Proof. unfold ruleNamed. simpl. apply String.eqb_refl. Qed.

Lemma ruleNamed_passthrough (o : option string) (ds : list Declaration) :
  ruleNamed (propertyKey o)
    {| newSelectors := [[o]]; newDeclarations := ds |} = true.
Proof. unfold ruleNamed. simpl. apply String.eqb_refl. Qed.

Lemma atomizeRule_namedByKey (options : Options)
  (st st' : ClassMap * NewRules) (rule : Rule) :
  namedByKey (snd st) -> atomizeRule options st rule = Normal st' ->
  namedByKey (snd st').
Proof.
  intros Hst Hrun. apply atomizeRule_inv in Hrun.
  destruct Hrun as [first [_ Hrun]]. destruct (isNonClass first).
  - subst st'. simpl. apply namedByKey_set;
      [assumption | apply ruleNamed_passthrough].
  - revert Hrun.
    apply (forEach_invariant (fun s => namedByKey (snd s))); [| assumption].
    intros [cm nr] d s' _ Hs Hd. apply atomizeDeclaration_inv in Hd.
    destruct Hd as [cm' [_ ->]]. simpl.
    apply namedByKey_set; [assumption | apply ruleNamed_atomic].
Qed.

Lemma atomizeRule_wf (options : Options)
  (st st' : ClassMap * NewRules) (rule : Rule) :
  JsObject.wf (snd st) -> atomizeRule options st rule = Normal st' ->
  JsObject.wf (snd st').
Proof.
  intros Hst Hrun. apply atomizeRule_inv in Hrun.
  destruct Hrun as [first [_ Hrun]]. destruct (isNonClass first).
  - subst st'. simpl. now apply wf_set.
  - revert Hrun.
    apply (forEach_invariant (fun s => JsObject.wf (snd s))); [| assumption].
    intros [cm nr] d s' _ Hs Hd. apply atomizeDeclaration_inv in Hd.
    destruct Hd as [cm' [_ ->]]. simpl. now apply wf_set.
Qed.

Lemma RemovePosition_newRules_keys (nr : NewRules) :
  JsObject.keys (RemovePosition.newRules nr) = JsObject.keys nr.
Proof.
  unfold JsObject.keys, RemovePosition.newRules. rewrite map_map.
  reflexivity.
Qed.

Lemma RemovePosition_newRules_named (nr : NewRules) :
  namedByKey nr -> namedByKey (RemovePosition.newRules nr).
Proof.
  unfold namedByKey, RemovePosition.newRules. intros Hnr.
  apply Forall_map. revert Hnr. apply Forall_impl.
  intros [k r]. simpl. auto.
Qed.

(** What [buildTables] returns without the uglifier pass. *)
Lemma buildTables_plain (options : Options) (parsedRules : list Rule)
  (cm : ClassMap) (nr : NewRules) :
  buildTables options parsedRules false = Normal (cm, nr) ->
  exists cm0 nr0,
    forEach parsedRules (atomizeRule options) ([], []) = Normal (cm0, nr0) /\
    cm = removeIdenticalProperties cm0 /\
    nr = RemovePosition.newRules nr0 /\
    namedByKey nr0 /\ JsObject.wf nr0.
Proof.
  unfold buildTables.
  destruct (forEach parsedRules (atomizeRule options) ([], []))
    as [[cm0 nr0] | e] eqn:Hloop; simpl; [| discriminate].
  intros Hret. inversion Hret. exists cm0, nr0.
  repeat split.
  - change nr0 with (snd (cm0, nr0)). revert Hloop.
    apply (forEach_invariant (fun s => namedByKey (snd s))).
    + intros s x s' _. apply atomizeRule_namedByKey.
    + constructor.
  - change nr0 with (snd (cm0, nr0)). revert Hloop.
    apply (forEach_invariant (fun s => JsObject.wf (snd s))).
    + intros s x s' _. apply atomizeRule_wf.
    + constructor.
Qed.
End TableFacts.

(** ** Cutting a name at its first colon *)

Section ColonFacts.
Import JsString.

Lemma beforeColon_nil : beforeColon "" = "".
Proof. reflexivity. Qed.

Lemma beforeColon_cons (c : ascii) (s : string) :
  beforeColon (String c s) =
  if Ascii.eqb c ":" then "" else String c (beforeColon s).
Proof.
  unfold beforeColon. simpl.
  destruct (Ascii.eqb c ":"); [reflexivity |].
  destruct (split ":" s); reflexivity.
Qed.

Lemma split_not_nil (sep : ascii) (s : string) : split sep s <> [].
Proof.
  destruct s as [| c s]; simpl; [discriminate |].
  destruct (Ascii.eqb c sep); [discriminate |].
  destruct (split sep s); discriminate.
Qed.

Lemma beforeColon_colonFree (s : string) :
  includes ":" s = false -> beforeColon s = s.
Proof.
  induction s as [| c s IH]; [reflexivity |].
  simpl. rewrite beforeColon_cons. intros Hs.
  apply orb_false_iff in Hs. destruct Hs as [Hc Hs].
  rewrite Hc. now rewrite IH.
Qed.

Lemma beforeColon_append (a b : string) :
  includes ":" a = false -> beforeColon (a ++ String ":" b) = a.
Proof.
  induction a as [| c a IH]; simpl.
  - intros _. rewrite beforeColon_cons. reflexivity.
  - intros Ha. apply orb_false_iff in Ha. destruct Ha as [Hc Ha].
    rewrite beforeColon_cons, Hc. now rewrite IH.
Qed.

Lemma append_assoc (a b c : string) :
  ((a ++ b) ++ c = a ++ (b ++ c))%string.
Proof.
  induction a as [| x a IH]; simpl; [reflexivity | now rewrite IH].
Qed.

Lemma includes_append (c : ascii) (a b : string) :
  includes c (a ++ b) = includes c a || includes c b.
Proof.
  induction a as [| x a IH]; simpl; [reflexivity |].
  rewrite IH. apply orb_assoc.
Qed.

Lemma upperChar_colon (c : ascii) :
  Ascii.eqb (upperChar c) ":" = Ascii.eqb c ":".
Proof.
  destruct c as [[] [] [] [] [] [] [] []]; reflexivity.
Qed.

Lemma includes_toUpperCase (s : string) :
  includes ":" (toUpperCase s) = includes ":" s.
Proof.
  induction s as [| c s IH]; simpl; [reflexivity |].
  now rewrite upperChar_colon, IH.
Qed.

Lemma beforeColon_idempotent (s : string) :
  beforeColon (beforeColon s) = beforeColon s.
Proof.
  induction s as [| c s IH]; [reflexivity |].
  rewrite beforeColon_cons. destruct (Ascii.eqb c ":") eqn:E; [reflexivity |].
  rewrite beforeColon_cons, E. now rewrite IH.
Qed.
End ColonFacts.

(** ** What an atomized declaration leaves in the tables *)

Section AtomizedDeclaration.
Context `{Collaborators}.

Lemma encodedName_pseudo (options : Options) (rule : Rule)
  (pseudo : Component) (d : Declaration) :
  pseudoComponent rule = Some pseudo ->
  encodedName options (RemovePosition.rule rule) d =
  (encodeClassName options d ++ "___-"
     ++ JsString.toUpperCase (name pseudo) ++ ":" ++ name pseudo)%string.
Proof.
  unfold encodedName.
  change (pseudoComponent (RemovePosition.rule rule))
    with (pseudoComponent rule).
  now intros ->.
Qed.


Lemma atomizeDeclaration_get (options : Options) (rule : Rule)
  (st st' : ClassMap * NewRules) (d : Declaration) :
  atomizeDeclaration options rule st d = Normal st' ->
  JsObject.get (encodedName options rule d) (snd st') =
  Some {| newSelectors := [[Some (encodedName options rule d)]];
          newDeclarations := [d] |}.
Proof.
  destruct st as [cm nr]. intros Hrun.
  apply atomizeDeclaration_inv in Hrun. destruct Hrun as [cm' [_ ->]].
  simpl. rewrite get_set, String.eqb_refl. reflexivity.
Qed.

Lemma atomized_in_tables (options : Options) (parsedRules : list Rule)
  (rule : Rule) (d : Declaration) (cm : ClassMap) (nr : NewRules) :
  buildTables options parsedRules false = Normal (cm, nr) ->
  In rule parsedRules -> classTargeted rule -> In d (declarations rule) ->
  let key :=
    encodedName options (RemovePosition.rule rule)
      (RemovePosition.declaration d) in
  (forall sel, In sel (selectors rule) ->
     exists first rest o arr,
       sel = first :: rest /\ original first = Some o /\
       JsObject.get (JsString.beforeColon o) cm = Some arr /\
       In (JsString.beforeColon key) arr) /\
  In key (JsObject.keys nr) /\
  exists r, In r (outputRules nr) /\ ruleNamed key r = true.
Proof.
  intros Hbuild Hrule Hclass Hd key.
  apply buildTables_plain in Hbuild.
  destruct Hbuild as [cm0 [nr0 [Hloop [-> [-> [Hnamed Hwf]]]]]].
  destruct (rulesLoop_declaration _ _ _ _ _ _ Hloop Hrule Hclass Hd)
    as [[cma nra] [[cmb nrb] [Hstep [_ [Hkeys Hmap]]]]].
  assert (Hkey : In key (JsObject.keys nr0)).
  { apply Hkeys. eapply get_Some_In.
    apply (atomizeDeclaration_get _ _ _ _ _ Hstep). }
  split; [| split].
  - intros sel Hsel.
    apply atomizeDeclaration_inv in Hstep.
    destruct Hstep as [cm' [Hupd Heq]]. inversion Heq. subst cmb nrb.
    destruct (updateClassMap_records _ _ _ _ Hupd sel Hsel)
      as [first [rest [o [arr [Hs [Ho [Hget Harr]]]]]]].
    destruct (Hmap _ _ Hget) as [arr' [Hget' Hincl]]. simpl in Hget'.
    exists first, rest, o, (uniqueFromEnd arr').
    repeat split; try assumption.
    + rewrite removeIdenticalProperties_get, Hget'. reflexivity.
    + rewrite uniqueFromEnd_keepLast. apply keepLast_In. now apply Hincl.
  - now rewrite RemovePosition_newRules_keys.
  - apply namedByKey_output.
    + now apply RemovePosition_newRules_named.
    + now rewrite RemovePosition_newRules_keys.
Qed.
End AtomizedDeclaration.

(** ** Rules with a pseudo-class *)

Section PseudoClaims.
Context `{Collaborators}.

(** C7. For a class-targeted rule whose selector has a second component
    of kind pseudo, the key under which each declaration is filed in the
    table of new rules is the encoded name followed by the marker
    ["___-"], the uppercased pseudo name, [":"] and the pseudo name as
    written; the atomic rule filed there has that key as its selector,
    and the key is in the table and among the emitted rules at the end of
    a call without uglification. *)
Theorem C7_pseudo_key (options : Options) (parsedRules : list Rule)
  (rule : Rule) (pseudo : Component) (d : Declaration)
  (cm : ClassMap) (nr : NewRules) :
  buildTables options parsedRules false = Normal (cm, nr) ->
  In rule parsedRules -> classTargeted rule ->
  pseudoComponent rule = Some pseudo -> In d (declarations rule) ->
  let d' := RemovePosition.declaration d in
  let key :=
    (encodeClassName options d' ++ "___-"
       ++ JsString.toUpperCase (name pseudo) ++ ":" ++ name pseudo)%string in
  (forall st st',
      atomizeDeclaration options (RemovePosition.rule rule) st d'
        = Normal st' ->
      JsObject.get key (snd st') =
      Some {| newSelectors := [[Some key]]; newDeclarations := [d'] |}) /\
  In key (JsObject.keys nr) /\
  exists r, In r (outputRules nr) /\ ruleNamed key r = true.
Proof.
  intros Hbuild Hrule Hclass Hpseudo Hd d' key.
  assert (Hkey : encodedName options (RemovePosition.rule rule) d' = key)
    by now apply encodedName_pseudo.
  split.
  - intros st st' Hstep. rewrite <- Hkey.
    now apply atomizeDeclaration_get with (st := st).
  - rewrite <- Hkey.
    apply (atomized_in_tables _ _ _ _ _ _ Hbuild Hrule Hclass Hd).
Qed.

(** C2, as the code has it.  For a class-targeted rule whose selector has
    a pseudo second component, the class map entry under the selector
    text cut at its first [":"] holds the emitted key cut at its first
    [":"]: the [":"] and the pseudo name as written are left out, the
    marker and the uppercased pseudo name are kept (when the encoded name
    and the pseudo name contain no [":"], the stored value is the encoded
    name followed by ["___-"] and the uppercased pseudo name).  The
    emitted rule's selector is the whole key. *)
Theorem C2_classMap_keeps_marker (options : Options)
  (parsedRules : list Rule) (rule : Rule) (pseudo : Component)
  (d : Declaration) (cm : ClassMap) (nr : NewRules) :
  buildTables options parsedRules false = Normal (cm, nr) ->
  In rule parsedRules -> classTargeted rule ->
  pseudoComponent rule = Some pseudo -> In d (declarations rule) ->
  let base := encodeClassName options (RemovePosition.declaration d) in
  let marked :=
    (base ++ "___-" ++ JsString.toUpperCase (name pseudo))%string in
  let key := (marked ++ ":" ++ name pseudo)%string in
  (forall sel, In sel (selectors rule) ->
     exists first rest o arr,
       sel = first :: rest /\ original first = Some o /\
       JsObject.get (JsString.beforeColon o) cm = Some arr /\
       In (JsString.beforeColon key) arr) /\
  (JsString.includes ":" base = false ->
   JsString.includes ":" (name pseudo) = false ->
   JsString.beforeColon key = marked) /\
  exists r, In r (outputRules nr) /\ ruleNamed key r = true.
Proof.
  intros Hbuild Hrule Hclass Hpseudo Hd base marked key.
  assert (Hkey : encodedName options (RemovePosition.rule rule)
                   (RemovePosition.declaration d) = key).
  { rewrite (encodedName_pseudo _ _ pseudo _ Hpseudo).
    unfold key, marked, base. now rewrite !append_assoc. }
  destruct (atomized_in_tables _ _ _ _ _ _ Hbuild Hrule Hclass Hd)
    as [Hmap [_ Hout]].
  rewrite Hkey in Hmap, Hout.
  split; [exact Hmap |]. split; [| exact Hout].
  intros Hbase Hname. unfold key. apply beforeColon_append.
  unfold marked. rewrite !includes_append, includes_toUpperCase.
  rewrite Hbase, Hname. reflexivity.
Qed.
End PseudoClaims.

(** ** One emitted rule per key *)

Section OneRulePerKey.
Context `{Collaborators}.




Lemma RemovePosition_newRules_wf (nr : NewRules) :
  JsObject.wf nr -> JsObject.wf (RemovePosition.newRules nr).
Proof.
  unfold JsObject.wf. now rewrite RemovePosition_newRules_keys.
Qed.
End OneRulePerKey.

(** ** Shared encodings *)

Section SharedEncoding.
Context `{Collaborators}.

End SharedEncoding.

(** ** Parse failures *)

Section ParseFailure.
Context `{Collaborators}.

Lemma cssWith_throw
  (parser : Options -> string -> Logged (option (list Rule)))
  (options : Options) (input : option string) (uglify : bool)
  (log : list Report) (err : Exn) :
  parser options (orEmpty input) = (log, Throw err) ->
  cssWith parser options input uglify =
  (log ++ [ReportError "Error parsing CSS" err;
           ReportInput "Error parsing CSS" (orEmpty input)],
   Normal {| classMap := []; output := "" |}).
Proof.
  unfold cssWith, throwError, emptyResult. intros ->.
  now rewrite <- app_assoc.
Qed.

Lemma cssWith_falsy
  (parser : Options -> string -> Logged (option (list Rule)))
  (options : Options) (input : option string) (uglify : bool)
  (log : list Report) :
  parser options (orEmpty input) = (log, Normal None) ->
  cssWith parser options input uglify =
  (log ++ [ReportInput "Error parsing CSS" (orEmpty input)],
   Normal {| classMap := []; output := "" |}).
Proof.
  unfold cssWith, throwError, emptyResult. now intros ->.
Qed.

(** C4. When the input is falsy or empty, and whenever the parser throws
    or returns a falsy tree, the call reports ["Error parsing CSS"]
    through [helpers.throwError] and returns [{classMap: {}, output: ''}]:
    the report of the caught exception, if any, comes first and the
    report that carries the input text last; for an empty input both
    versions of the parser add their own report and return nothing. *)
Theorem C4_parse_failure_empty_result
  (parser : Options -> string -> Logged (option (list Rule)))
  (options : Options) (input : option string) (uglify : bool) :
  (orEmpty input = "" ->
   css options input uglify =
     ([ReportBare "Invalid CSS input.";
       ReportInput "Error parsing CSS" ""],
      Normal {| classMap := []; output := "" |}) /\
   cssStripping options input uglify =
     ([ReportBare "Invalid CSS input.";
       ReportInput "Error parsing CSS" ""],
      Normal {| classMap := []; output := "" |})) /\
  (forall log err,
      parser options (orEmpty input) = (log, Throw err) ->
      cssWith parser options input uglify =
      (log ++ [ReportError "Error parsing CSS" err;
               ReportInput "Error parsing CSS" (orEmpty input)],
       Normal {| classMap := []; output := "" |})) /\
  (forall log,
      parser options (orEmpty input) = (log, Normal None) ->
      cssWith parser options input uglify =
      (log ++ [ReportInput "Error parsing CSS" (orEmpty input)],
       Normal {| classMap := []; output := "" |})).
Proof.
  split; [| split].
  - intros Hempty. unfold css, cssStripping. split.
    + rewrite (cssWith_falsy _ _ _ _ [ReportBare "Invalid CSS input."]);
        [now rewrite Hempty |].
      unfold cssParser. now rewrite Hempty.
    + rewrite (cssWith_falsy _ _ _ _ [ReportBare "Invalid CSS input."]);
        [now rewrite Hempty |].
      unfold cssParserStripping. now rewrite Hempty.
  - intros log err. apply cssWith_throw.
  - intros log. apply cssWith_falsy.
Qed.
End ParseFailure.

(** ** The two parsers *)

Lemma forEach_map {A B S : Type} (f : A -> B) (l : list A)
  (body : S -> B -> Completion S) (s : S) :
  forEach (map f l) body s = forEach l (fun s x => body s (f x)) s.
Proof.
  revert s. induction l as [| x l IH]; intros s; simpl.
  - reflexivity.
  - destruct (body s (f x)) as [s' | e]; simpl; [apply IH | reflexivity].
Qed.

Lemma forEach_ext {A S : Type} (l : list A)
  (body1 body2 : S -> A -> Completion S) :
  (forall s x, In x l -> body1 s x = body2 s x) ->
  forall s, forEach l body1 s = forEach l body2 s.
Proof.
  induction l as [| x l IH]; intros Hext s; simpl.
  - reflexivity.
  - rewrite (Hext s x (or_introl eq_refl)).
    destruct (body2 s x) as [s' | e]; simpl; [| reflexivity].
    apply IH. intros t y Hy. apply Hext. now right.
Qed.

Section PositionMetadata.
Context `{Collaborators}.

Lemma RemovePosition_declaration_idempotent (d : Declaration) :
  RemovePosition.declaration (RemovePosition.declaration d)
  = RemovePosition.declaration d.
Proof. reflexivity. Qed.

Lemma RemovePosition_rule_idempotent (r : Rule) :
  RemovePosition.rule (RemovePosition.rule r) = RemovePosition.rule r.
Proof.
  unfold RemovePosition.rule. simpl. rewrite map_map. reflexivity.
Qed.

Lemma parseSelectors_stripped (r : RawRule) :
  parseSelectors (RemovePosition.rawRule r) =
  (rule <- parseSelectors r ;; Normal (RemovePosition.rule rule)).
Proof.
  unfold parseSelectors. simpl.
  destruct (rawSelectors r) as [texts |]; [| reflexivity].
  destruct (selectorParse (JsString.join "," texts)) as [parsed | e];
    simpl; [| reflexivity].
  destruct (attachOriginal parsed texts) as [parsed' | e]; reflexivity.
Qed.

Lemma mapM_parseSelectors_stripped (rawRules : list RawRule) :
  mapM parseSelectors (map RemovePosition.rawRule rawRules) =
  (parsedRules <- mapM parseSelectors rawRules ;;
   Normal (map RemovePosition.rule parsedRules)).
Proof.
  induction rawRules as [| r rawRules IH]; simpl.
  - reflexivity.
  - rewrite parseSelectors_stripped, IH.
    destruct (parseSelectors r) as [rule | e]; simpl; [| reflexivity].
    destruct (mapM parseSelectors rawRules); reflexivity.
Qed.

(** The rules loop removes the positions itself. *)
Lemma atomizeRule_stripped (options : Options)
  (st : ClassMap * NewRules) (rule : Rule) :
  atomizeRule options st (RemovePosition.rule rule)
  = atomizeRule options st rule.
Proof.
  unfold atomizeRule. now rewrite RemovePosition_rule_idempotent.
Qed.

Lemma buildTables_stripped (options : Options) (parsedRules : list Rule)
  (uglify : bool) :
  buildTables options (map RemovePosition.rule parsedRules) uglify
  = buildTables options parsedRules uglify.
Proof.
  unfold buildTables. rewrite forEach_map.
  rewrite (forEach_ext parsedRules _ (atomizeRule options)); [reflexivity |].
  intros s x _. apply atomizeRule_stripped.
Qed.

Lemma atomize_stripped (options : Options) (parsedRules : list Rule)
  (uglify : bool) :
  atomize options (map RemovePosition.rule parsedRules) uglify
  = atomize options parsedRules uglify.
Proof. unfold atomize. now rewrite buildTables_stripped. Qed.

(** C9. Linked with the parser that removes the position metadata before
    it returns, the engine reports and returns exactly what it does when
    linked with the parser that leaves the positions in place, on every
    input and with either value of the uglify flag: the rules loop
    removes the positions of each rule before it reads it. *)
Theorem C9_parsers_agree (options : Options) (input : option string)
  (uglify : bool) :
  cssStripping options input uglify = css options input uglify.
Proof.
  unfold cssStripping, css, cssWith, cssParserStripping, cssParser.
  destruct (String.eqb (orEmpty input) ""); [reflexivity |].
  destruct (cssParse (orEmpty input) (negb (verbose options)))
    as [[rawRules |] | e]; simpl; try reflexivity.
  rewrite mapM_parseSelectors_stripped.
  destruct (mapM parseSelectors rawRules) as [parsedRules | e]; simpl;
    [| reflexivity].
  now rewrite atomize_stripped.
Qed.
End PositionMetadata.

(** ** Passthrough rules with the same selector text *)

Section ObjectSetFacts.
Context {V : Type}.
Implicit Types (o : JsObject.t V) (k : string) (v w : V).


End ObjectSetFacts.


Section Overwriting.
Context `{Collaborators}.




End Overwriting.

Section LaterRuleWins.
Context `{Collaborators}.




Lemma RemovePosition_newRules_get (nr : NewRules) (k : string) :
  JsObject.get k (RemovePosition.newRules nr)
  = option_map RemovePosition.newRule (JsObject.get k nr).
Proof.
  induction nr as [| [k0 r0] nr IH]; simpl; [reflexivity |].
  destruct (String.eqb k0 k); [reflexivity | assumption].
Qed.
End LaterRuleWins.

Section LaterRuleWinsClaim.
Context `{Collaborators}.

End LaterRuleWinsClaim.

(** ** The uglifier pass *)

Section Tokens.
Context `{Collaborators}.
Hypothesis injective : forall i j,
    fst (cssUglifier i) = fst (cssUglifier j) -> i = j.
Hypothesis advances : forall i, i < snd (cssUglifier i).

Lemma drawTokens_counter (n i : nat) (t : string) :
  In t (drawTokens n i) -> exists c, i <= c /\ t = fst (cssUglifier c).
Proof.
  revert i. induction n as [| n IH]; intros i; simpl; [contradiction |].
  intros [<- | Hin].
  - exists i. split; [lia | reflexivity].
  - destruct (IH _ Hin) as [c [Hc Ht]]. exists c. split; [| assumption].
    pose proof (advances i). lia.
Qed.

Lemma drawTokens_NoDup (n i : nat) : NoDup (drawTokens n i).
Proof.
  revert i. induction n as [| n IH]; intros i; simpl; constructor.
  - intros Hin. apply drawTokens_counter in Hin.
    destruct Hin as [c [Hc Ht]]. apply injective in Ht.
    pose proof (advances i). lia.
  - apply IH.
Qed.

Lemma drawTokens_length (n i : nat) : List.length (drawTokens n i) = n.
Proof.
  revert i. induction n as [| n IH]; intros i; simpl;
    [reflexivity | now rewrite IH].
Qed.
End Tokens.

Section RenameLists.

Lemma replaceFirst_map (b t : string) (arr : list string) :
  count_occ string_dec arr b <= 1 ->
  replaceFirst b t arr
  = map (fun v => if String.eqb v b then t else v) arr.
Proof.
  induction arr as [| z arr IH]; simpl; [reflexivity |].
  destruct (string_dec z b) as [-> | Hne].
  - rewrite String.eqb_refl. intros Hcount. f_equal.
    assert (Hnot : ~ In b arr).
    { apply (count_occ_not_In string_dec). lia. }
    clear IH Hcount. induction arr as [| y arr IH]; simpl; [reflexivity |].
    destruct (String.eqb y b) eqn:E.
    + apply String.eqb_eq in E. subst. exfalso. apply Hnot. now left.
    + f_equal. apply IH. intros Hin. apply Hnot. now right.
  - apply String.eqb_neq in Hne. rewrite Hne. intros Hcount.
    f_equal. now apply IH.
Qed.

Lemma replaceFirst_count (b t b' : string) (arr : list string) :
  b' <> t ->
  count_occ string_dec (replaceFirst b t arr) b'
  <= count_occ string_dec arr b'.
Proof.
  intros Hne. induction arr as [| z arr IH]; simpl; [lia |].
  destruct (String.eqb z b) eqn:E; simpl.
  - destruct (string_dec t b'); [congruence |].
    destruct (string_dec z b'); lia.
  - destruct (string_dec z b'); lia.
Qed.

Lemma renamed_cons (b t : string) (pairs : list (string * string))
  (v : string) :
  renamed ((b, t) :: pairs) v
  = if String.eqb v b then t else renamed pairs v.
Proof.
  unfold renamed. simpl. rewrite (String.eqb_sym b v).
  destruct (String.eqb v b); reflexivity.
Qed.

Lemma renamed_absent (pairs : list (string * string)) (v : string) :
  ~ In v (map fst pairs) -> renamed pairs v = v.
Proof.
  intros Hnot. unfold renamed.
  destruct (JsObject.get v pairs) eqn:E; [| reflexivity].
  apply get_Some_In in E. contradiction.
Qed.

(** Renaming in turn is renaming at once when no array holds an old base
    key twice and no token is an old base key. *)
Lemma renameInTurn_renamed (pairs : list (string * string)) :
  (forall t, In t (map snd pairs) -> ~ In t (map fst pairs)) ->
  forall arr,
    (forall b, In b (map fst pairs) -> count_occ string_dec arr b <= 1) ->
    renameInTurn pairs arr = map (renamed pairs) arr.
Proof.
  unfold renameInTurn.
  induction pairs as [| [b t] pairs IH]; intros Hfresh arr Honce; simpl.
  - unfold renamed. simpl. now rewrite map_id.
  - rewrite IH.
    + rewrite replaceFirst_map by (apply Honce; now left).
      rewrite map_map. apply map_ext. intros v. rewrite renamed_cons.
      destruct (String.eqb v b); [| reflexivity].
      apply renamed_absent. intros Hin.
      apply (Hfresh t); [now left | now right].
    + intros t' Ht' Hb'. apply (Hfresh t'); [now right | now right].
    + intros b' Hb'.
      eapply Nat.le_trans; [apply replaceFirst_count | apply Honce; now right].
      intros ->. apply (Hfresh t); [now left | now right].
Qed.
End RenameLists.

Section RenameClassMap.
Context `{Collaborators}.

Lemma renameInClassMap_step (t key mapKey : string) (cm : ClassMap) :
  let st := renameInClassMap t (key, cm) mapKey in
  fst st = JsString.beforeColon key /\
  JsObject.keys (snd st) = JsObject.keys cm /\
  forall k, JsObject.get k (snd st) =
    if String.eqb mapKey k
    then option_map (replaceFirst (JsString.beforeColon key) t)
           (JsObject.get k cm)
    else JsObject.get k cm.
Proof.
  unfold renameInClassMap.
  destruct (JsObject.get mapKey cm) as [arr |] eqn:E; simpl.
  - split; [reflexivity |]. split.
    + apply keys_set_present. eapply get_Some_In. eassumption.
    + intros k. rewrite get_set.
      destruct (String.eqb mapKey k) eqn:Ek; [| reflexivity].
      apply String.eqb_eq in Ek. subst k. now rewrite E.
  - split; [reflexivity |]. split; [reflexivity |].
    intros k. destruct (String.eqb mapKey k) eqn:Ek; [| reflexivity].
    apply String.eqb_eq in Ek. subst k. now rewrite E.
Qed.

Lemma renameInClassMap_fold (t : string) (ks : list string) :
  NoDup ks ->
  forall (key : string) (cm : ClassMap),
    let st := fold_left (renameInClassMap t) ks (key, cm) in
    JsObject.keys (snd st) = JsObject.keys cm /\
    forall k, JsObject.get k (snd st) =
      if existsb (String.eqb k) ks
      then option_map (replaceFirst (JsString.beforeColon key) t)
             (JsObject.get k cm)
      else JsObject.get k cm.
Proof.
  induction 1 as [| mapKey ks Hnot Hnd IH]; intros key cm; cbv zeta;
    cbn [fold_left existsb].
  - split; reflexivity.
  - destruct (renameInClassMap_step t key mapKey cm) as [Hkey [Hkeys Hget]].
    destruct (renameInClassMap t (key, cm) mapKey) as [key1 cm1].
    simpl in Hkey, Hkeys, Hget. subst key1.
    destruct (IH (JsString.beforeColon key) cm1) as [Hkeys' Hget'].
    cbv zeta in Hkeys', Hget'.
    rewrite beforeColon_idempotent in Hget'.
    split; [now rewrite Hkeys' |].
    intros k. rewrite Hget', Hget, (String.eqb_sym k mapKey).
    destruct (String.eqb mapKey k) eqn:Ek; simpl; [| reflexivity].
    apply String.eqb_eq in Ek. subst k.
    apply existsb_eqb_not_In in Hnot. now rewrite Hnot.
Qed.

(** The inner loop of the pass over a well-formed class map. *)
Lemma renameInClassMap_all (t key : string) (cm : ClassMap) :
  JsObject.wf cm ->
  let cm' :=
    snd (fold_left (renameInClassMap t) (JsObject.keys cm) (key, cm)) in
  JsObject.keys cm' = JsObject.keys cm /\
  forall k, JsObject.get k cm' =
    option_map (replaceFirst (JsString.beforeColon key) t)
      (JsObject.get k cm).
Proof.
  intros Hwf.
  destruct (renameInClassMap_fold t (JsObject.keys cm) Hwf key cm)
    as [Hkeys Hget].
  split; [assumption |]. intros k. rewrite Hget.
  destruct (existsb (String.eqb k) (JsObject.keys cm)) eqn:E;
    [reflexivity |].
  apply existsb_eqb_not_In in E. apply get_None in E. now rewrite E.
Qed.
End RenameClassMap.

Section ObjectAppendFacts.
Context {V : Type}.
Implicit Types (o p : JsObject.t V) (k : string) (v : V).

Lemma keys_app o p :
  JsObject.keys (o ++ p) = JsObject.keys o ++ JsObject.keys p.
Proof. apply map_app. Qed.

Lemma get_app_absent o p k :
  ~ In k (JsObject.keys o) ->
  JsObject.get k (o ++ p) = JsObject.get k p.
Proof.
  induction o as [| [k0 v0] o IH]; simpl; [reflexivity |].
  intros Hnot. destruct (String.eqb k0 k) eqn:E.
  - apply String.eqb_eq in E. exfalso. apply Hnot. now left.
  - apply IH. intros Hin. apply Hnot. now right.
Qed.

Lemma set_absent o k v :
  ~ In k (JsObject.keys o) -> JsObject.set k v o = o ++ [(k, v)].
Proof.
  induction o as [| [k0 v0] o IH]; simpl; [reflexivity |].
  intros Hnot. destruct (String.eqb k0 k) eqn:E.
  - apply String.eqb_eq in E. exfalso. apply Hnot. now left.
  - rewrite IH; [reflexivity |]. intros Hin. apply Hnot. now right.
Qed.

Lemma delete_app_absent o p k v :
  ~ In k (JsObject.keys o) ->
  JsObject.delete k (o ++ (k, v) :: p) = o ++ p.
Proof.
  induction o as [| [k0 v0] o IH]; simpl.
  - intros _. now rewrite String.eqb_refl.
  - intros Hnot. destruct (String.eqb k0 k) eqn:E.
    + apply String.eqb_eq in E. exfalso. apply Hnot. now left.
    + rewrite IH; [reflexivity |]. intros Hin. apply Hnot. now right.
Qed.
End ObjectAppendFacts.

Section PseudoSuffix.
Import JsString.

Lemma join_cons (sep p : string) (ps : list string) :
  ps <> [] -> join sep (p :: ps) = (p ++ sep ++ join sep ps)%string.
Proof. destruct ps; [congruence | reflexivity]. Qed.

Lemma split_join (s : string) : join ":" (split ":" s) = s.
Proof.
  induction s as [| c s IH]; [reflexivity |].
  simpl. destruct (Ascii.eqb c ":") eqn:E.
  - apply Ascii.eqb_eq in E. subst c.
    rewrite join_cons by apply split_not_nil. now rewrite IH.
  - destruct (split ":" s) as [| h t] eqn:Es.
    + now apply split_not_nil in Es.
    + destruct t as [| q t]; simpl in *; [now rewrite IH |].
      now rewrite <- IH.
Qed.

Lemma pseudoSuffix_cons (c : ascii) (s : string) :
  pseudoSuffix (String c s) =
  if Ascii.eqb c ":" then String ":" s else pseudoSuffix s.
Proof.
  unfold pseudoSuffix. simpl. destruct (Ascii.eqb c ":") eqn:E; simpl.
  - now rewrite split_join.
  - destruct (split ":" s) as [| h t] eqn:Es; [| reflexivity].
    now apply split_not_nil in Es.
Qed.

(** A key is its base followed by its pseudo suffix. *)
Lemma beforeColon_pseudoSuffix (key : string) :
  (beforeColon key ++ pseudoSuffix key)%string = key.
Proof.
  induction key as [| c s IH]; [reflexivity |].
  rewrite beforeColon_cons, pseudoSuffix_cons.
  destruct (Ascii.eqb c ":") eqn:E; simpl.
  - apply Ascii.eqb_eq in E. now subst c.
  - now rewrite IH.
Qed.

Lemma pseudoSuffix_shape (key : string) :
  pseudoSuffix key = "" \/ exists rest, pseudoSuffix key = String ":" rest.
Proof.
  unfold pseudoSuffix. destruct (includes ":" key); [right | now left].
  eexists. reflexivity.
Qed.

Lemma append_empty (s : string) : (s ++ "")%string = s.
Proof. induction s as [| c s IH]; simpl; [reflexivity | now rewrite IH]. Qed.

(** The base of a renamed key is the token it drew. *)
Lemma beforeColon_uglified (token key : string) :
  includes ":" token = false ->
  beforeColon (token ++ pseudoSuffix key) = token.
Proof.
  intros Hfree. destruct (pseudoSuffix_shape key) as [-> | [rest ->]].
  - rewrite append_empty. now apply beforeColon_colonFree.
  - now apply beforeColon_append.
Qed.
End PseudoSuffix.

Section UglifyStep.
Context `{Collaborators}.

Lemma ruleNamed_shape (k : string) (r : NewRule) :
  ruleNamed k r = true -> exists o, newSelectors r = [[o]].
Proof.
  unfold ruleNamed.
  destruct (newSelectors r) as [| [| o []] []]; try discriminate.
  intros _. now exists o.
Qed.

Lemma uglifyKey_other (st : UglifyState) (key : string) :
  classBased key = false -> uglifyKey st key = Normal st.
Proof. unfold uglifyKey, classBased. now intros ->. Qed.

Lemma uglifyKey_class (st : UglifyState) (key : string) (r : NewRule) :
  classBased key = true ->
  JsObject.get key (uglyNewRules st) = Some r ->
  ruleNamed key r = true ->
  let token := fst (cssUglifier (index st)) in
  uglifyKey st key =
  Normal {| index := snd (cssUglifier (index st));
            uglyClassMap :=
              snd (fold_left (renameInClassMap token)
                     (JsObject.keys (uglyClassMap st))
                     (key, uglyClassMap st));
            uglyNewRules :=
              JsObject.delete key
                (JsObject.set (token ++ pseudoSuffix key)%string
                   (snd (uglifiedEntry (key, r, token)))
                   (uglyNewRules st)) |}.
Proof.
  intros Hclass Hget Hnamed token. unfold uglifyKey, classBased in *.
  rewrite Hclass, Hget.
  destruct (ruleNamed_shape _ _ Hnamed) as [o Ho].
  unfold setFirstSelector. rewrite Ho. reflexivity.
Qed.
End UglifyStep.

(** The outer loop of the pass: the entries still to visit sit between the
    passthrough entries already visited and the renamed entries appended
    at the end of the table. *)
Section UglifyLoop.
Context `{Collaborators}.
Hypothesis injective : forall i j,
    fst (cssUglifier i) = fst (cssUglifier j) -> i = j.
Hypothesis advances : forall i, i < snd (cssUglifier i).
Hypothesis colonFree : forall i,
    JsString.includes ":" (fst (cssUglifier i)) = false.

Lemma uglifyLoop (rest : NewRules) :
  forall (pre done : NewRules) (i : nat) (cm : ClassMap),
    namedByKey rest ->
    NoDup (JsObject.keys (pre ++ rest)) ->
    (forall k c, In k (JsObject.keys (pre ++ rest)) ->
                 fst (cssUglifier c) <> JsString.beforeColon k) ->
    (forall k, In k (JsObject.keys done) ->
               exists c, c < i /\
                         JsString.beforeColon k = fst (cssUglifier c)) ->
    JsObject.wf cm ->
    let classEntries := filter (fun kv => classBased (fst kv)) rest in
    let tokens := drawTokens (List.length classEntries) i in
    exists i' cm',
      forEach (JsObject.keys rest) uglifyKey
        {| index := i; uglyClassMap := cm;
           uglyNewRules := pre ++ rest ++ done |}
      = Normal
          {| index := i'; uglyClassMap := cm';
             uglyNewRules :=
               pre ++ filter (fun kv => negb (classBased (fst kv))) rest
               ++ done ++ map uglifiedEntry (combine classEntries tokens) |}
      /\ JsObject.keys cm' = JsObject.keys cm
      /\ forall k, JsObject.get k cm' =
           option_map
             (renameInTurn
                (combine
                   (map (fun kv => JsString.beforeColon (fst kv))
                      classEntries) tokens))
             (JsObject.get k cm).
Proof.
  induction rest as [| [k r] rest IH];
    intros pre done i cm Hnamed Hnd Hfresh Hdone Hwf; cbv zeta.
  - exists i, cm. simpl. rewrite app_nil_r. split; [reflexivity |].
    split; [reflexivity |]. intros k. now destruct (JsObject.get k cm).
  - inversion Hnamed as [| ? ? Hr Hrest]. subst. simpl in Hr.
    change (JsObject.keys ((k, r) :: rest)) with (k :: JsObject.keys rest).
    cbn [forEach filter fst].
    assert (Hk : ~ In k (JsObject.keys pre)).
    { rewrite keys_app in Hnd. simpl in Hnd.
      apply NoDup_remove_2 in Hnd. intros Hin. apply Hnd.
      apply in_or_app. now left. }
    destruct (classBased k) eqn:Hclass; cbn [negb].
    + pose (token := fst (cssUglifier i)).
      pose (name := (token ++ pseudoSuffix k)%string).
      assert (Hbase : JsString.beforeColon name = token)
        by apply beforeColon_uglified, colonFree.
      assert (Hname : ~ In name
                        (JsObject.keys (pre ++ ((k, r) :: rest) ++ done))).
      { rewrite app_assoc, keys_app. intros Hin.
        apply in_app_or in Hin. destruct Hin as [Hin | Hin].
        - apply (Hfresh name i Hin). now rewrite Hbase.
        - destruct (Hdone name Hin) as [c [Hc Heq]].
          rewrite Hbase in Heq. apply injective in Heq. lia. }
      rewrite (uglifyKey_class _ k r Hclass); [| | exact Hr].
      2: { simpl. rewrite get_app_absent by assumption.
           simpl. now rewrite String.eqb_refl. }
      cbn [index uglyClassMap uglyNewRules bind].
      fold token. change (snd (uglifiedEntry (k, r, token)))
        with {| newSelectors := [[Some name]];
                newDeclarations := newDeclarations r |}.
      fold name.
      rewrite set_absent by exact Hname.
      replace ((pre ++ ((k, r) :: rest) ++ done)
               ++ [(name, {| newSelectors := [[Some name]];
                             newDeclarations := newDeclarations r |})])
        with (pre ++ (k, r)
                :: (rest ++ done
                    ++ [(name, {| newSelectors := [[Some name]];
                                  newDeclarations := newDeclarations r |})]))
        by (rewrite <- !app_assoc; reflexivity).
      rewrite delete_app_absent by assumption.
      destruct (renameInClassMap_all token k cm Hwf) as [Hkeys Hget].
      cbv zeta in Hkeys, Hget.
      set (cm1 := snd (fold_left (renameInClassMap token)
                         (JsObject.keys cm) (k, cm))) in *.
      destruct (IH pre
                  (done ++ [(name, {| newSelectors := [[Some name]];
                                      newDeclarations := newDeclarations r |})])
                  (snd (cssUglifier i)) cm1)
        as [i' [cm' [Hrun [Hkeys' Hget']]]].
      * exact Hrest.
      * rewrite keys_app in *. simpl in Hnd.
        now apply NoDup_remove_1 in Hnd.
      * intros k0 c Hin. apply Hfresh. rewrite keys_app in *. simpl.
        apply in_app_or in Hin. apply in_or_app.
        destruct Hin; [now left | right; now right].
      * intros k0 Hin. rewrite keys_app in Hin. apply in_app_or in Hin.
        pose proof (advances i).
        destruct Hin as [Hin | [<- | []]].
        -- destruct (Hdone k0 Hin) as [c [Hc Heq]]. exists c.
           split; [lia | assumption].
        -- exists i. split; [lia | exact Hbase].
      * unfold JsObject.wf. now rewrite Hkeys.
      * exists i', cm'. split; [| split].
        -- rewrite Hrun. cbn [Datatypes.length drawTokens combine map].
           fold token. cbn [uglifiedEntry]. fold name.
           now rewrite <- !app_assoc.
        -- now rewrite Hkeys'.
        -- intros k0. rewrite Hget', Hget.
           cbn [Datatypes.length drawTokens combine map fst].
           fold token. now destruct (JsObject.get k0 cm).
    + rewrite uglifyKey_other by assumption. cbn [bind].
      replace (pre ++ ((k, r) :: rest) ++ done)
        with ((pre ++ [(k, r)]) ++ rest ++ done)
        by (rewrite <- app_assoc; reflexivity).
      destruct (IH (pre ++ [(k, r)]) done i cm)
        as [i' [cm' [Hrun [Hkeys' Hget']]]]; try assumption.
      * now rewrite <- app_assoc.
      * intros k0 c Hin. apply Hfresh. now rewrite <- app_assoc in Hin.
      * exists i', cm'. split; [| split]; try assumption.
        rewrite Hrun. now rewrite <- !app_assoc.
Qed.
End UglifyLoop.

Section ClassMapShape.
Context `{Collaborators}.

Lemma updateClassMap_wf (sels : list Selector) (enc : string) :
  forall cm cm', JsObject.wf cm ->
    updateClassMap cm sels enc = Normal cm' -> JsObject.wf cm'.
Proof.
  induction sels as [| sel sels IH]; intros cm cm' Hwf Hrun.
  - inversion Hrun. now subst.
  - apply updateClassMap_cons in Hrun.
    destruct Hrun as [first [rest [o [_ [_ Hrun]]]]].
    apply (IH _ _ (wf_set _ _ _ Hwf) Hrun).
Qed.

Lemma atomizeRule_classMap_wf (options : Options)
  (st st' : ClassMap * NewRules) (rule : Rule) :
  JsObject.wf (fst st) -> atomizeRule options st rule = Normal st' ->
  JsObject.wf (fst st').
Proof.
  intros Hst Hrun. apply atomizeRule_inv in Hrun.
  destruct Hrun as [first [_ Hrun]]. destruct (isNonClass first).
  - now subst st'.
  - revert Hrun.
    apply (forEach_invariant (fun s => JsObject.wf (fst s))); [| assumption].
    intros [cm nr] d s' _ Hs Hd. apply atomizeDeclaration_inv in Hd.
    destruct Hd as [cm' [Hupd ->]]. simpl in *.
    now apply (updateClassMap_wf _ _ _ _ Hs Hupd).
Qed.

(** The class map a call without uglification returns: one entry per
    selector text, no class name twice in an entry. *)
Lemma buildTables_plain_classMap (options : Options)
  (parsedRules : list Rule) (cm : ClassMap) (nr : NewRules) :
  buildTables options parsedRules false = Normal (cm, nr) ->
  JsObject.wf cm /\
  forall k arr, JsObject.get k cm = Some arr -> NoDup arr.
Proof.
  intros Hbuild. apply buildTables_plain in Hbuild.
  destruct Hbuild as [cm0 [nr0 [Hloop [-> _]]]]. split.
  - unfold JsObject.wf. rewrite removeIdenticalProperties_keys.
    change cm0 with (fst (cm0, nr0)). revert Hloop.
    apply (forEach_invariant (fun s => JsObject.wf (fst s))).
    + intros s x s' _. apply atomizeRule_classMap_wf.
    + constructor.
  - intros k arr. rewrite removeIdenticalProperties_get.
    destruct (JsObject.get k cm0) as [arr0 |]; simpl; [| discriminate].
    intros Heq. inversion Heq. rewrite uniqueFromEnd_keepLast.
    apply keepLast_NoDup.
Qed.

Lemma buildTables_uglify (options : Options) (parsedRules : list Rule)
  (cm : ClassMap) (nr : NewRules) :
  buildTables options parsedRules false = Normal (cm, nr) ->
  buildTables options parsedRules true = uglifyPass cm nr.
Proof.
  unfold buildTables.
  destruct (forEach parsedRules (atomizeRule options) ([], []))
    as [[cm0 nr0] | e]; simpl; [| discriminate].
  intros Heq. now inversion Heq.
Qed.
End ClassMapShape.

Section UglifyClaim.
Context `{Collaborators}.

Lemma renamed_pair (pairs : list (string * string)) (b t : string) :
  NoDup (map fst pairs) -> In (b, t) pairs -> renamed pairs b = t.
Proof.
  unfold renamed. induction pairs as [| [b0 t0] pairs IH]; simpl;
    [contradiction |].
  intros Hnd Hin. inversion Hnd as [| ? ? Hnot Hrest]. subst.
  destruct Hin as [Heq | Hin].
  - inversion Heq. subst. now rewrite String.eqb_refl.
  - destruct (String.eqb b0 b) eqn:E.
    + apply String.eqb_eq in E. subst b0. exfalso. apply Hnot.
      apply in_map_iff. exists (b, t). auto.
    + now apply IH.
Qed.

Lemma renamed_token (pairs : list (string * string)) (v : string) :
  In v (map fst pairs) -> In (renamed pairs v) (map snd pairs).
Proof.
  unfold renamed. induction pairs as [| [b0 t0] pairs IH]; simpl;
    [contradiction |].
  intros Hin. destruct (String.eqb b0 v) eqn:E; [now left |].
  right. apply IH. destruct Hin as [Heq | Hin]; [| assumption].
  apply String.eqb_neq in E. contradiction.
Qed.

(** C6. With the uglify flag set and a generator that is injective in its
    counter and hands the counter on advanced, the tokens drawn for the
    class-based keys of the table of new rules, one per key in table order
    and each from the counter the previous draw returned, are pairwise
    distinct.  When the tokens are class names as the generator writes
    them (no [":"], and not a name already in the table), the call returns
    the passthrough rules followed by the class-based rules, each filed
    under its token followed by the pseudo suffix of its old key, and in
    every entry of the class map every value equal to the base of an old
    key is the token drawn for that key, without any suffix. *)
Theorem C6_uglified_names (options : Options) (parsedRules : list Rule)
  (cm : ClassMap) (nr : NewRules) :
  (forall i j, fst (cssUglifier i) = fst (cssUglifier j) -> i = j) ->
  (forall i, i < snd (cssUglifier i)) ->
  buildTables options parsedRules false = Normal (cm, nr) ->
  let classEntries := filter (fun kv => classBased (fst kv)) nr in
  let tokens := drawTokens (List.length classEntries) 0 in
  let pairs :=
    combine (map (fun kv => JsString.beforeColon (fst kv)) classEntries)
      tokens in
  NoDup tokens /\ List.length tokens = List.length classEntries /\
  ((forall i, JsString.includes ":" (fst (cssUglifier i)) = false) ->
   (forall i k, In k (JsObject.keys nr) ->
                fst (cssUglifier i) <> JsString.beforeColon k) ->
   exists cm',
    buildTables options parsedRules true =
      Normal (cm',
              filter (fun kv => negb (classBased (fst kv))) nr
              ++ map uglifiedEntry (combine classEntries tokens)) /\
    JsObject.keys cm' = JsObject.keys cm /\
    (forall k, JsObject.get k cm' =
               option_map (map (renamed pairs)) (JsObject.get k cm)) /\
    (forall v, In v (map fst pairs) -> In (renamed pairs v) tokens) /\
    (forall key rule token,
        In (key, rule, token) (combine classEntries tokens) ->
        key = (JsString.beforeColon key ++ pseudoSuffix key)%string /\
        fst (uglifiedEntry (key, rule, token))
          = (token ++ pseudoSuffix key)%string /\
        (NoDup (map fst pairs) ->
         renamed pairs (JsString.beforeColon key) = token))).
Proof.
  intros Hinj Hadv Hbuild classEntries tokens pairs.
  split; [now apply drawTokens_NoDup |].
  split; [apply drawTokens_length |].
  intros Hcolon Hfresh.
  destruct (buildTables_plain_classMap _ _ _ _ Hbuild) as [Hwf Hnodup].
  pose proof (buildTables_uglify _ _ _ _ Hbuild) as Hugly.
  apply buildTables_plain in Hbuild.
  destruct Hbuild as [cm0 [nr0 [_ [_ [Hnr [Hnamed Hwfnr]]]]]].
  apply RemovePosition_newRules_named in Hnamed.
  apply RemovePosition_newRules_wf in Hwfnr. rewrite <- Hnr in *.
  destruct (uglifyLoop Hinj Hadv Hcolon nr [] [] 0 cm)
    as [i' [cm' [Hrun [Hkeys Hget]]]]; try assumption.
  - intros k c Hin. now apply Hfresh.
  - intros k [].
  - simpl in Hrun. rewrite app_nil_r in Hrun.
    exists cm'. split; [| split; [| split; [| split]]].
    + rewrite Hugly. unfold uglifyPass. now rewrite Hrun.
    + assumption.
    + intros k. rewrite Hget.
      destruct (JsObject.get k cm) as [arr |] eqn:Earr; [| reflexivity].
      simpl. f_equal. apply renameInTurn_renamed.
      * intros t Ht Hb.
        apply in_map_iff in Ht. destruct Ht as [[b0 t0] [Heq Ht]].
        simpl in Heq. subst t0. apply in_combine_r in Ht.
        apply drawTokens_counter in Ht; [| assumption].
        destruct Ht as [c [_ ->]].
        apply in_map_iff in Hb. destruct Hb as [[b1 t1] [Heq Hb]].
        simpl in Heq. subst b1. apply in_combine_l in Hb.
        apply in_map_iff in Hb. destruct Hb as [[k1 r1] [Heq Hb]].
        simpl in Heq. apply filter_In in Hb. destruct Hb as [Hb _].
        apply (Hfresh c k1); [| now symmetry].
        apply in_map_iff. exists (k1, r1). auto.
      * intros b _. apply NoDup_count_occ. now apply (Hnodup k).
    + intros v Hv. apply renamed_token in Hv.
      apply in_map_iff in Hv. destruct Hv as [[b0 t0] [Heq Hv]].
      simpl in Heq. rewrite <- Heq. now apply in_combine_r in Hv.
    + intros key rule token Hin. split; [| split].
      * symmetry. apply beforeColon_pseudoSuffix.
      * reflexivity.
      * intros Hnd. apply renamed_pair; [assumption |].
        unfold pairs. clear - Hin. revert Hin. generalize tokens.
        induction classEntries as [| [k0 r0] entries IH];
          intros [| t0 ts]; simpl; try contradiction.
        intros [Heq | Hin]; [inversion Heq; now left | right; now apply IH].
Qed.
End UglifyClaim.

(** * Concrete runs *)

Section SampleUglifier.

Lemma digits_of_uint (d : Decimal.uint) :
  Sample.allDigits (NilEmpty.string_of_uint d) = true.
Proof. induction d; simpl; auto. Qed.

Lemma colonFree_of_uint (d : Decimal.uint) :
  JsString.includes ":" (NilEmpty.string_of_uint d) = false.
Proof. induction d; simpl; auto. Qed.

Lemma sample_uglifier_injective (i j : nat) :
  fst (Sample.uglifier i) = fst (Sample.uglifier j) -> i = j.
Proof.
  unfold Sample.uglifier. simpl. intros Heq. inversion Heq as [Hdigits].
  apply DecimalNat.Unsigned.to_uint_inj.
  apply (f_equal NilEmpty.uint_of_string) in Hdigits.
  rewrite !NilEmpty.usu in Hdigits. now inversion Hdigits.
Qed.

Lemma sample_uglifier_advances (i : nat) : i < snd (Sample.uglifier i).
Proof. simpl. lia. Qed.

Lemma sample_uglifier_colonFree (i : nat) :
  JsString.includes ":" (fst (Sample.uglifier i)) = false.
Proof. simpl. apply colonFree_of_uint. Qed.

(** A token is [".rp__"] followed by digits only. *)
Lemma sample_uglifier_digits (i : nat) (rest : string) :
  fst (Sample.uglifier i) = (".rp__" ++ rest)%string ->
  Sample.allDigits rest = true.
Proof.
  unfold Sample.uglifier. simpl. intros Heq. inversion Heq.
  apply digits_of_uint.
Qed.
End SampleUglifier.

Ltac distinct :=
  repeat (constructor; [simpl; intuition discriminate |]); constructor.

Lemma C1_removeIdenticalProperties_witness :
  NoDup [".rp__display__--COLONblock"; ".rp__display__--COLONnone"] /\
  uniqueFromEnd [".rp__display__--COLONblock"; ".rp__display__--COLONnone"]
  = [".rp__display__--COLONblock"; ".rp__display__--COLONnone"] /\
  uniqueFromEnd [".rp__color__--COLONred"; ".rp__color__--COLONred"]
  = [".rp__color__--COLONred"].
Proof.
  assert (Hnd : NoDup [".rp__display__--COLONblock";
                       ".rp__display__--COLONnone"]) by distinct.
  split; [exact Hnd |]. split.
  - destruct (C1_removeIdenticalProperties_last_occurrence [] "")
      as [_ [_ Harr]].
    destruct (Harr [".rp__display__--COLONblock";
                    ".rp__display__--COLONnone"])
      as [_ [_ [_ [_ [_ Hfixed]]]]].
    exact (Hfixed Hnd).
  - destruct (C1_removeIdenticalProperties_last_occurrence [] "")
      as [_ [_ Harr]].
    destruct (Harr [".rp__color__--COLONred"; ".rp__color__--COLONred"])
      as [_ [_ [_ [_ [Hcopies _]]]]].
    exact (Hcopies ".rp__color__--COLONred" 1 eq_refl).
Defined.

(** C2 as the specification states it fails on [.a:hover { color:red; }]:
    the class map entry of [".a"] is the encoded name with the marker and
    the uppercased pseudo name, not the encoded name. *)
Lemma C2_counterexample :
  @css Sample.collaborators true (Some ".a:hover { color:red; }") false
  = ([],
     Normal
       {| classMap := [(".a", [".rp__color__--COLONred___-HOVER"])];
          output := ".rp__color__--COLONred___-HOVER:hover{color:red;}" |}) /\
  @encodeClassName Sample.collaborators true (Sample.decl "color" "red" None)
  = ".rp__color__--COLONred" /\
  ~ In ".rp__color__--COLONred" [".rp__color__--COLONred___-HOVER"].
Proof.
  split; [reflexivity |]. split; [reflexivity |].
  simpl. intuition discriminate.
Qed.

Lemma C2_classMap_keeps_marker_witness :
  exists arr,
    JsObject.get ".a" [(".a", [".rp__color__--COLONred___-HOVER"])] = Some arr /\
    In (JsString.beforeColon ".rp__color__--COLONred___-HOVER:hover") arr.
Proof.
  destruct (@C2_classMap_keeps_marker Sample.collaborators true
              (Sample.parsed ".a:hover { color:red; }") Sample.hoverRule
              {| type := "pseudo"; name := "hover"; original := None |}
              (Sample.decl "color" "red" (Sample.at_ 1 12 1 21))
              [(".a", [".rp__color__--COLONred___-HOVER"])]
              [(".rp__color__--COLONred___-HOVER:hover",
                {| newSelectors :=
                     [[Some ".rp__color__--COLONred___-HOVER:hover"]];
                   newDeclarations := [Sample.decl "color" "red" None] |})])
    as [Hmap _].
  - reflexivity.
  - now left.
  - eexists. split; reflexivity.
  - reflexivity.
  - now left.
  - destruct (Hmap _ (or_introl eq_refl))
      as [first [rest [o [arr [Hsel [Ho [Hget Hin]]]]]]].
    inversion Hsel. subst first rest. inversion Ho. subst o.
    exists arr. split; assumption.
Defined.

(** C3 fails on [h1, h2 { color:red; }]: both selectors are parsed, and
    the rule that is passed through selects [h1] only. *)
Theorem C3_passthrough_keeps_first_selector_only :
  map (fun r => map (map original) (map (firstn 1) (selectors r)))
    (Sample.parsed "h1, h2 { color:red; }")
  = [[[Some "h1"]; [Some "h2"]]] /\
  @buildTables Sample.collaborators true
    (Sample.parsed "h1, h2 { color:red; }") false
  = Normal ([], [("h1", {| newSelectors := [[Some "h1"]];
                          newDeclarations :=
                            [Sample.decl "color" "red" None] |})]) /\
  @css Sample.collaborators true (Some "h1, h2 { color:red; }") false
  = ([], Normal {| classMap := []; output := "h1{color:red;}" |}).
Proof. repeat split. Qed.

Lemma C4_parse_failure_witness :
  @css Sample.collaborators true None false
  = ([ReportBare "Invalid CSS input."; ReportInput "Error parsing CSS" ""],
     Normal {| classMap := []; output := "" |}) /\
  @css Sample.collaborators true (Some "a {") true
  = ([ReportError "Error parsing CSS" (Thrown "parse error");
      ReportInput "Error parsing CSS" "a {"],
     Normal {| classMap := []; output := "" |}).
Proof.
  split.
  - exact (proj1 (proj1 (@C4_parse_failure_empty_result Sample.collaborators
                           (@cssParser Sample.collaborators) true None false)
                    eq_refl)).
  - exact (proj1 (proj2 (@C4_parse_failure_empty_result Sample.collaborators
                           (@cssParser Sample.collaborators) true
                           (Some "a {") true))
             [] (Thrown "parse error") eq_refl).
Defined.


Lemma C7_pseudo_key_witness :
  In ".rp__color__--COLONred___-HOVER:hover"
    (JsObject.keys
       [(".rp__color__--COLONred___-HOVER:hover",
         {| newSelectors := [[Some ".rp__color__--COLONred___-HOVER:hover"]];
            newDeclarations := [Sample.decl "color" "red" None] |})]).
Proof.
  destruct (@C7_pseudo_key Sample.collaborators true
              (Sample.parsed ".a:hover { color:red; }") Sample.hoverRule
              {| type := "pseudo"; name := "hover"; original := None |}
              (Sample.decl "color" "red" (Sample.at_ 1 12 1 21))
              [(".a", [".rp__color__--COLONred___-HOVER"])]
              [(".rp__color__--COLONred___-HOVER:hover",
                {| newSelectors :=
                     [[Some ".rp__color__--COLONred___-HOVER:hover"]];
                   newDeclarations := [Sample.decl "color" "red" None] |})])
    as [_ [Hkey _]].
  - reflexivity.
  - now left.
  - eexists. split; reflexivity.
  - reflexivity.
  - now left.
  - exact Hkey.
Defined.


Lemma C6_uglified_names_witness :
  exists cm',
    @buildTables Sample.collaborators true
      (Sample.parsed
         ".a { color:red; margin:0; } .b:hover { color:red; } p { margin:0; }")
      true
    = Normal
        (cm',
         [("p", {| newSelectors := [[Some "p"]];
                   newDeclarations := [Sample.decl "margin" "0" None] |});
          (".rp__0", {| newSelectors := [[Some ".rp__0"]];
                        newDeclarations := [Sample.decl "color" "red" None] |});
          (".rp__1", {| newSelectors := [[Some ".rp__1"]];
                        newDeclarations := [Sample.decl "margin" "0" None] |});
          (".rp__2:hover",
           {| newSelectors := [[Some ".rp__2:hover"]];
              newDeclarations := [Sample.decl "color" "red" None] |})]) /\
    JsObject.get ".a" cm' = Some [".rp__0"; ".rp__1"] /\
    JsObject.get ".b" cm' = Some [".rp__2"].
Proof.
  edestruct (@C6_uglified_names Sample.collaborators true
               (Sample.parsed
                  ".a { color:red; margin:0; } .b:hover { color:red; } p { margin:0; }"))
    as [_ [_ Hpass]].
  3: reflexivity.
  - exact sample_uglifier_injective.
  - exact sample_uglifier_advances.
  - destruct Hpass as [cm' [Hrun [_ [Hget _]]]].
    + exact sample_uglifier_colonFree.
    + intros i k Hin Heq. simpl in Hin.
      destruct Hin as [<- | [<- | [<- | [<- | []]]]].
      * pose proof (sample_uglifier_digits i "color__--COLONred" Heq) as Hd.
        discriminate Hd.
      * pose proof (sample_uglifier_digits i "margin__--COLON0" Heq) as Hd.
        discriminate Hd.
      * pose proof (sample_uglifier_digits i "color__--COLONred___-HOVER"
                      Heq) as Hd.
        discriminate Hd.
      * discriminate Heq.
    + exists cm'. split; [exact Hrun |].
      split; rewrite Hget; reflexivity.
Defined.

(** * Further properties *)

(** ** [updateClassMap] as a fold *)

Section UpdateClassMapFacts.
Context `{Collaborators}.

Lemma updateClassMap_nil (cm : ClassMap) (enc : string) :
  updateClassMap cm [] enc = Normal cm.
Proof. reflexivity. Qed.

Lemma updateClassMap_step (cm : ClassMap) (sel : Selector)
  (sels : list Selector) (enc : string) :
  updateClassMap cm (sel :: sels) enc =
  match firstOriginal sel with
  | Some o =>
      if inheritedMember (JsString.beforeColon o) cm then Throw TypeError
      else
        updateClassMap
          (pushName cm (JsString.beforeColon o, JsString.beforeColon enc))
          sels enc
  | None => Throw TypeError
  end.
Proof.
  unfold updateClassMap. simpl.
  destruct sel as [| first rest]; [reflexivity |].
  cbn [firstOriginal].
  destruct (original first); [| reflexivity].
  destruct (inheritedMember _ cm); reflexivity.
Qed.

(** A push under a text that is no inherited member leaves the inherited
    members what they were. *)
Lemma inheritedMember_pushName (cm : ClassMap) (text v text' : string) :
  inheritedMember text cm = false ->
  inheritedMember text' (pushName cm (text, v)) = inheritedMember text' cm.
Proof.
  unfold inheritedMember, pushName. cbn [fst snd]. intros Hfree.
  rewrite get_set. destruct (String.eqb text text') eqn:E; [| reflexivity].
  apply String.eqb_eq in E. subst text'. rewrite Hfree.
  apply andb_false_r.
Qed.

Lemma readableIn_pushName (cm : ClassMap) (text v : string)
  (sels : list Selector) :
  inheritedMember text cm = false ->
  forallb (readableIn (pushName cm (text, v))) sels
  = forallb (readableIn cm) sels.
Proof.
  intros Hfree. induction sels as [| sel sels IH]; [reflexivity |].
  cbn [forallb]. rewrite IH. f_equal. unfold readableIn.
  destruct (firstOriginal sel); [| reflexivity].
  now rewrite inheritedMember_pushName.
Qed.

Lemma selectorTexts_cons (sel : Selector) (sels : list Selector) :
  selectorTexts (sel :: sels) =
  match firstOriginal sel with
  | Some o => JsString.beforeColon o :: selectorTexts sels
  | None => selectorTexts sels
  end.
Proof.
  unfold selectorTexts. cbn [flat_map].
  destruct sel as [| first rest]; [reflexivity |].
  cbn [firstOriginal]. destruct (original first); reflexivity.
Qed.

Lemma updateClassMap_spec (sels : list Selector) (enc : string) :
  forall cm,
    updateClassMap cm sels enc =
    if forallb (readableIn cm) sels then
      Normal (fold_left pushName
                (map (fun text => (text, JsString.beforeColon enc))
                   (selectorTexts sels)) cm)
    else Throw TypeError.
Proof.
  induction sels as [| sel sels IH]; intros cm.
  - reflexivity.
  - rewrite updateClassMap_step, selectorTexts_cons.
    cbn [forallb]. unfold readableIn at 1.
    destruct (firstOriginal sel) as [o |]; [| reflexivity].
    destruct (inheritedMember (JsString.beforeColon o) cm) eqn:Efree;
      [reflexivity |].
    cbn [negb andb map fold_left]. rewrite IH.
    now rewrite readableIn_pushName.
Qed.

Lemma cleanMap_nil : cleanMap [].
Proof. intros k _. reflexivity. Qed.

Lemma cleanMap_inheritedMember (cm : ClassMap) (text : string) :
  cleanMap cm -> inheritedMember text cm = inheritedName text.
Proof.
  intros Hclean. unfold inheritedMember. fold (inheritedName text).
  destruct (inheritedName text) eqn:E; [| reflexivity].
  now rewrite (Hclean text E).
Qed.

Lemma cleanMap_readable (cm : ClassMap) (sels : list Selector) :
  cleanMap cm -> forallb (readableIn cm) sels = forallb readable sels.
Proof.
  intros Hclean. induction sels as [| sel sels IH]; [reflexivity |].
  cbn [forallb]. rewrite IH. f_equal. unfold readableIn, readable.
  destruct (firstOriginal sel); [| reflexivity].
  now rewrite cleanMap_inheritedMember.
Qed.

Lemma cleanMap_pushName (cm : ClassMap) (pairs : list (string * string)) :
  Forall (fun kv => inheritedName (fst kv) = false) pairs ->
  cleanMap cm -> cleanMap (fold_left pushName pairs cm).
Proof.
  intros Hpairs. revert cm.
  induction Hpairs as [| [k v] pairs Hk _ IH]; intros cm Hclean;
    [exact Hclean |].
  cbn [fold_left]. apply IH. intros k' Hk'. unfold pushName. cbn [fst snd].
  rewrite get_set. destruct (String.eqb k k') eqn:E; [| now apply Hclean].
  apply String.eqb_eq in E. subst k'. simpl in Hk. congruence.
Qed.

Lemma readable_selectorTexts (sels : list Selector) :
  forallb readable sels = true ->
  Forall (fun text => inheritedName text = false) (selectorTexts sels).
Proof.
  induction sels as [| sel sels IH]; [constructor |].
  cbn [forallb]. rewrite selectorTexts_cons. unfold readable at 1.
  intros Hall. apply andb_true_iff in Hall. destruct Hall as [Hsel Hall].
  destruct (firstOriginal sel) as [o |]; [| discriminate].
  constructor; [| now apply IH]. now apply negb_true_iff.
Qed.
End UpdateClassMapFacts.

(** ** The rules loop as two folds *)

Section RulesLoopSpec.
Context `{Collaborators}.

Lemma firstComponent_throw (rule : Rule) (e : Exn) :
  firstComponent rule = Throw e -> e = TypeError.
Proof.
  unfold firstComponent. destruct (selectors rule) as [| [| c cs] sels];
    intros Heq; inversion Heq; reflexivity.
Qed.

Lemma atomizeDeclaration_spec (options : Options) (rule : Rule)
  (cm : ClassMap) (nr : NewRules) (d : Declaration) :
  cleanMap cm ->
  atomizeDeclaration options rule (cm, nr) d =
  let key := encodedName options rule d in
  if forallb readable (selectors rule) then
    Normal (fold_left pushName
              (map (fun text => (text, JsString.beforeColon key))
                 (selectorTexts (selectors rule))) cm,
            fileEntry nr (key, {| newSelectors := [[Some key]];
                                   newDeclarations := [d] |}))
  else Throw TypeError.
Proof.
  intros Hclean. unfold atomizeDeclaration. cbv zeta.
  rewrite updateClassMap_spec, (cleanMap_readable cm _ Hclean).
  destruct (forallb readable (selectors rule)); reflexivity.
Qed.

Lemma texts_clean (sels : list Selector) (v : string) :
  forallb readable sels = true ->
  Forall (fun kv : string * string => inheritedName (fst kv) = false)
    (map (fun text => (text, v)) (selectorTexts sels)).
Proof.
  intros Hall. apply Forall_map. cbn [fst].
  now apply readable_selectorTexts.
Qed.

Lemma declarationsLoop_spec (options : Options) (rule : Rule)
  (ds : list Declaration) :
  forallb readable (selectors rule) = true ->
  forall cm nr,
    cleanMap cm ->
    forEach ds (atomizeDeclaration options rule) (cm, nr) =
    Normal
      (fold_left pushName
         (flat_map
            (fun d =>
               map (fun text =>
                      (text,
                       JsString.beforeColon (encodedName options rule d)))
                 (selectorTexts (selectors rule)))
            ds) cm,
       fold_left fileEntry
         (map (fun d =>
                 (encodedName options rule d,
                  {| newSelectors := [[Some (encodedName options rule d)]];
                     newDeclarations := [d] |}))
            ds) nr).
Proof.
  intros Hreadable. induction ds as [| d ds IH]; intros cm nr Hclean.
  - reflexivity.
  - cbn [forEach]. rewrite atomizeDeclaration_spec by exact Hclean.
    cbv zeta. rewrite Hreadable. cbn [bind]. rewrite IH.
    + cbn [flat_map map fold_left]. now rewrite fold_left_app.
    + apply cleanMap_pushName; [| exact Hclean]. now apply texts_clean.
Qed.

(** The selector texts an atomizable rule adds to the class map are no
    inherited names. *)
Lemma namings_clean (options : Options) (rule : Rule) :
  atomizable rule = true ->
  Forall (fun kv => inheritedName (fst kv) = false) (namings options rule).
Proof.
  unfold atomizable, namings.
  destruct (firstComponent rule) as [first | e]; [| discriminate].
  destruct (isNonClass first); [constructor |]. cbn [orb].
  destruct (declarations rule) as [| d ds]; [constructor |].
  intros Hreadable. apply Forall_forall. intros kv Hin.
  apply in_flat_map in Hin. destruct Hin as [d' [_ Hin]].
  pose proof (texts_clean (selectors rule)
                (JsString.beforeColon
                   (encodedName options (RemovePosition.rule rule)
                      (RemovePosition.declaration d'))) Hreadable) as Hall.
  rewrite Forall_forall in Hall. now apply Hall.
Qed.

Lemma atomizeRule_spec (options : Options) (cm : ClassMap) (nr : NewRules)
  (rule : Rule) :
  cleanMap cm ->
  atomizeRule options (cm, nr) rule =
  if atomizable rule then
    Normal (fold_left pushName (namings options rule) cm,
            fold_left fileEntry (filings options rule) nr)
  else Throw TypeError.
Proof.
  intros Hclean.
  unfold atomizeRule, atomizable, namings, filings, handleNonClasses.
  change (firstComponent (RemovePosition.rule rule))
    with (firstComponent rule).
  destruct (firstComponent rule) as [first | e] eqn:Efirst; cbn [bind].
  2: { now rewrite (firstComponent_throw _ _ Efirst). }
  destruct (isNonClass first); cbn [orb]; [reflexivity |].
  cbn [declarations RemovePosition.rule snd fst].
  destruct (declarations rule) as [| d ds] eqn:Eds; [reflexivity |].
  destruct (forallb readable (selectors rule)) eqn:Hreadable.
  - rewrite (declarationsLoop_spec options (RemovePosition.rule rule));
      [| exact Hreadable | exact Hclean].
    rewrite flat_map_concat_map, map_map, <- flat_map_concat_map, map_map.
    reflexivity.
  - cbn [map forEach]. rewrite atomizeDeclaration_spec by exact Hclean.
    cbv zeta. cbn [selectors RemovePosition.rule]. now rewrite Hreadable.
Qed.

Lemma rulesLoop_spec (options : Options) (parsedRules : list Rule) :
  forall cm nr,
    cleanMap cm ->
    forEach parsedRules (atomizeRule options) (cm, nr) =
    if forallb atomizable parsedRules then
      Normal (fold_left pushName (flat_map (namings options) parsedRules) cm,
              fold_left fileEntry (flat_map (filings options) parsedRules) nr)
    else Throw TypeError.
Proof.
  induction parsedRules as [| rule rules IH]; intros cm nr Hclean.
  - reflexivity.
  - cbn [forEach forallb flat_map]. rewrite atomizeRule_spec by exact Hclean.
    destruct (atomizable rule) eqn:Erule; cbn [bind andb]; [| reflexivity].
    rewrite IH.
    + now rewrite !fold_left_app.
    + apply cleanMap_pushName; [| exact Hclean]. now apply namings_clean.
Qed.
End RulesLoopSpec.

(** ** Folds over the tables *)

Section FoldFacts.

Lemma get_app {V : Type} (a b : JsObject.t V) (k : string) :
  JsObject.get k (a ++ b) =
  match JsObject.get k a with
  | Some v => Some v
  | None => JsObject.get k b
  end.
Proof.
  induction a as [| [k0 v0] a IH]; simpl; [reflexivity |].
  destruct (String.eqb k0 k); [reflexivity | exact IH].
Qed.

Lemma get_In {V : Type} (o : JsObject.t V) (k : string) (v : V) :
  JsObject.get k o = Some v -> In (k, v) o.
Proof.
  induction o as [| [k0 v0] o IH]; simpl; [discriminate |].
  destruct (String.eqb k0 k) eqn:E.
  - apply String.eqb_eq in E. subst k0. intros Heq. inversion Heq. now left.
  - intros Hget. right. now apply IH.
Qed.

Lemma keys_set_Set_add {V : Type} (o : JsObject.t V) (k : string) (v : V) :
  JsObject.keys (JsObject.set k v o) = Set_add (JsObject.keys o) k.
Proof. apply keys_set. Qed.

Lemma fileEntry_keys (entries : list (string * NewRule)) :
  forall t,
    JsObject.keys (fold_left fileEntry entries t) =
    fold_left Set_add (map fst entries) (JsObject.keys t).
Proof.
  induction entries as [| [k r] entries IH]; intros t; simpl.
  - reflexivity.
  - rewrite IH. unfold fileEntry. simpl. now rewrite keys_set_Set_add.
Qed.

Lemma fileEntry_get (entries : list (string * NewRule)) (k : string) :
  forall t,
    JsObject.get k (fold_left fileEntry entries t) =
    match JsObject.get k (rev entries) with
    | Some r => Some r
    | None => JsObject.get k t
    end.
Proof.
  induction entries as [| [k0 r0] entries IH]; intros t; simpl.
  - reflexivity.
  - rewrite IH, get_app. unfold fileEntry. simpl. rewrite get_set.
    destruct (JsObject.get k (rev entries)); [reflexivity |].
    destruct (String.eqb k0 k); reflexivity.
Qed.

Lemma pushName_keys (pairs : list (string * string)) :
  forall cm,
    JsObject.keys (fold_left pushName pairs cm) =
    fold_left Set_add (map fst pairs) (JsObject.keys cm).
Proof.
  induction pairs as [| [k v] pairs IH]; intros cm; simpl.
  - reflexivity.
  - rewrite IH. unfold pushName. simpl. now rewrite keys_set_Set_add.
Qed.

Lemma pushName_get (pairs : list (string * string)) (k : string) :
  forall cm,
    JsObject.get k (fold_left pushName pairs cm) =
    match namesOf k pairs with
    | [] => JsObject.get k cm
    | names =>
        Some (match JsObject.get k cm with
              | Some arr => arr
              | None => []
              end ++ names)
    end.
Proof.
  unfold namesOf.
  induction pairs as [| [k0 v0] pairs IH]; intros cm; simpl.
  - reflexivity.
  - rewrite IH. unfold pushName. cbn [fst snd]. rewrite !get_set.
    destruct (String.eqb k0 k) eqn:E; cbn [map snd].
    + apply String.eqb_eq in E. subst k0.
      destruct (map snd (filter (fun kv => String.eqb (fst kv) k) pairs));
        [reflexivity |].
      now rewrite <- app_assoc.
    + reflexivity.
Qed.
End FoldFacts.

(** ** The tables of a call without uglification *)

Section PlainTablesSpec.
Context `{Collaborators}.

Lemma buildTables_plain_spec (options : Options) (parsedRules : list Rule) :
  buildTables options parsedRules false =
  if forallb atomizable parsedRules then
    Normal
      (removeIdenticalProperties
         (fold_left pushName (flat_map (namings options) parsedRules) []),
       RemovePosition.newRules
         (fold_left fileEntry (flat_map (filings options) parsedRules) []))
  else Throw TypeError.
Proof.
  unfold buildTables. rewrite rulesLoop_spec by apply cleanMap_nil.
  destruct (forallb atomizable parsedRules); reflexivity.
Qed.

Lemma RemovePosition_map_declaration_idempotent (ds : list Declaration) :
  map RemovePosition.declaration (map RemovePosition.declaration ds)
  = map RemovePosition.declaration ds.
Proof. rewrite map_map. now apply map_ext. Qed.

Lemma filings_stripped (options : Options) (rule : Rule) (k : string)
  (r : NewRule) :
  In (k, r) (filings options rule) -> RemovePosition.newRule r = r.
Proof.
  unfold filings. destruct (firstComponent rule) as [first | e];
    [| contradiction].
  destruct (isNonClass first).
  - intros [Heq | []]. inversion Heq. unfold RemovePosition.newRule. simpl.
    now rewrite RemovePosition_map_declaration_idempotent.
  - intros Hin. apply in_map_iff in Hin. destruct Hin as [d [Heq _]].
    inversion Heq. reflexivity.
Qed.

Lemma filings_named (options : Options) (rule : Rule) (k : string)
  (r : NewRule) :
  In (k, r) (filings options rule) -> ruleNamed k r = true.
Proof.
  unfold filings. destruct (firstComponent rule) as [first | e];
    [| contradiction].
  destruct (isNonClass first).
  - intros [Heq | []]. inversion Heq. apply ruleNamed_passthrough.
  - intros Hin. apply in_map_iff in Hin. destruct Hin as [d [Heq _]].
    inversion Heq. apply ruleNamed_atomic.
Qed.

(** The tables of a call without uglification, read off the rules. *)
Lemma plainTables_spec (options : Options) (parsedRules : list Rule)
  (cm : ClassMap) (nr : NewRules) :
  buildTables options parsedRules false = Normal (cm, nr) ->
  let entries := flat_map (filings options) parsedRules in
  let pairs := flat_map (namings options) parsedRules in
  forallb atomizable parsedRules = true /\
  JsObject.keys nr = Set_from (map fst entries) /\
  (forall k, JsObject.get k nr = JsObject.get k (rev entries)) /\
  JsObject.keys cm = Set_from (map fst pairs) /\
  (forall k, JsObject.get k cm =
             match namesOf k pairs with
             | [] => None
             | names => Some (keepLastOccurrences names)
             end).
Proof.
  intros Hbuild entries pairs. rewrite buildTables_plain_spec in Hbuild.
  destruct (forallb atomizable parsedRules); [| discriminate].
  inversion Hbuild. clear Hbuild. split; [reflexivity |].
  split; [| split; [| split]].
  - rewrite RemovePosition_newRules_keys, fileEntry_keys. reflexivity.
  - intros k. rewrite RemovePosition_newRules_get, fileEntry_get. simpl.
    fold entries. destruct (JsObject.get k (rev entries)) as [r |] eqn:E;
      [| reflexivity].
    simpl. f_equal. apply get_In in E. apply in_rev in E.
    apply in_flat_map in E. destruct E as [rule [_ E]].
    now apply filings_stripped in E.
  - rewrite removeIdenticalProperties_keys, pushName_keys. reflexivity.
  - intros k. rewrite removeIdenticalProperties_get, pushName_get. simpl.
    fold pairs. destruct (namesOf k pairs); [reflexivity |].
    simpl. now rewrite uniqueFromEnd_keepLast.
Qed.
End PlainTablesSpec.

(** ** The uglifier pass on any tokens *)

Section ObjectValueFacts.
Context {V : Type}.
Implicit Types (o : JsObject.t V) (k : string) (v : V).

Lemma values_set (Q : V -> Prop) o k v :
  Forall Q (JsObject.values o) -> Q v ->
  Forall Q (JsObject.values (JsObject.set k v o)).
Proof.
  unfold JsObject.values. intros Ho Hv.
  induction o as [| [k0 v0] o IH]; simpl.
  - constructor; [assumption | constructor].
  - inversion Ho as [| ? ? Hhead Htail]. subst.
    destruct (String.eqb k0 k); simpl; constructor; auto.
Qed.

Lemma values_delete (Q : V -> Prop) o k :
  Forall Q (JsObject.values o) ->
  Forall Q (JsObject.values (JsObject.delete k o)).
Proof.
  unfold JsObject.values. intros Ho.
  induction o as [| [k0 v0] o IH]; simpl; [constructor |].
  inversion Ho as [| ? ? Hhead Htail]. subst.
  destruct (String.eqb k0 k); simpl; [assumption |].
  constructor; auto.
Qed.

Lemma keys_delete_other o k k' :
  k' <> k -> In k' (JsObject.keys o) ->
  In k' (JsObject.keys (JsObject.delete k o)).
Proof.
  intros Hne. induction o as [| [k0 v0] o IH]; simpl; [contradiction |].
  intros [Heq | Hin].
  - subst k0. destruct (String.eqb k' k) eqn:E.
    + apply String.eqb_eq in E. contradiction.
    + now left.
  - destruct (String.eqb k0 k); [assumption |]. right. now apply IH.
Qed.

Lemma get_present o k :
  In k (JsObject.keys o) -> exists v, JsObject.get k o = Some v /\ In v (JsObject.values o).
Proof.
  intros Hin. destruct (JsObject.get k o) as [v |] eqn:E.
  - exists v. split; [reflexivity |]. apply get_In in E.
    unfold JsObject.values. apply in_map_iff. exists (k, v). auto.
  - apply get_None in E. contradiction.
Qed.

Lemma length_delete_present o k :
  In k (JsObject.keys o) ->
  S (List.length (JsObject.delete k o)) = List.length o.
Proof.
  induction o as [| [k0 v0] o IH]; simpl; [contradiction |].
  intros Hin. destruct (String.eqb k0 k) eqn:E; [reflexivity |].
  simpl. rewrite IH; [reflexivity |].
  destruct Hin as [Heq | Hin]; [| assumption].
  apply String.eqb_neq in E. contradiction.
Qed.

Lemma length_set_le o k v :
  List.length (JsObject.set k v o) <= S (List.length o).
Proof.
  induction o as [| [k0 v0] o IH]; simpl; [lia |].
  destruct (String.eqb k0 k); simpl; lia.
Qed.
End ObjectValueFacts.

Section UglifyTotal.
Context `{Collaborators}.

Lemma replaceFirst_length (x y : string) (arr : list string) :
  List.length (replaceFirst x y arr) = List.length arr.
Proof.
  induction arr as [| z arr IH]; simpl; [reflexivity |].
  destruct (String.eqb z x); simpl; [reflexivity | now rewrite IH].
Qed.

Lemma renameInClassMap_shape (t : string) (ks : list string) :
  forall (key : string) (cm : ClassMap),
    JsObject.keys (snd (fold_left (renameInClassMap t) ks (key, cm)))
    = JsObject.keys cm /\
    forall k,
      option_map (@List.length string)
        (JsObject.get k (snd (fold_left (renameInClassMap t) ks (key, cm))))
      = option_map (@List.length string) (JsObject.get k cm).
Proof.
  induction ks as [| mapKey ks IH]; intros key cm; cbn [fold_left].
  - split; reflexivity.
  - destruct (renameInClassMap_step t key mapKey cm) as [_ [Hkeys Hget]].
    destruct (renameInClassMap t (key, cm) mapKey) as [key1 cm1].
    simpl in Hkeys, Hget.
    destruct (IH key1 cm1) as [Hkeys' Hget'].
    split; [now rewrite Hkeys' |].
    intros k. rewrite Hget', Hget.
    destruct (String.eqb mapKey k); [| reflexivity].
    destruct (JsObject.get k cm); simpl; [| reflexivity].
    now rewrite replaceFirst_length.
Qed.

(** What one turn of the pass keeps, whatever token is drawn. *)
Lemma uglifyKey_total (st : UglifyState) (key : string) :
  In key (JsObject.keys (uglyNewRules st)) ->
  Forall (fun r => newSelectors r <> []) (JsObject.values (uglyNewRules st)) ->
  exists st',
    uglifyKey st key = Normal st' /\
    (forall k, k <> key -> In k (JsObject.keys (uglyNewRules st)) ->
               In k (JsObject.keys (uglyNewRules st'))) /\
    Forall (fun r => newSelectors r <> [])
      (JsObject.values (uglyNewRules st')) /\
    List.length (uglyNewRules st') <= List.length (uglyNewRules st) /\
    (forall Q : list Declaration -> Prop,
        Forall (fun r => Q (newDeclarations r))
          (JsObject.values (uglyNewRules st)) ->
        Forall (fun r => Q (newDeclarations r))
          (JsObject.values (uglyNewRules st'))) /\
    JsObject.keys (uglyClassMap st') = JsObject.keys (uglyClassMap st) /\
    (forall k,
        option_map (@List.length string) (JsObject.get k (uglyClassMap st'))
        = option_map (@List.length string)
            (JsObject.get k (uglyClassMap st))).
Proof.
  intros Hin Hsel. unfold uglifyKey.
  destruct (JsString.startsWith "." key).
  2: { exists st. repeat split; auto. }
  destruct (get_present _ _ Hin) as [r [Hget Hr]]. rewrite Hget.
  assert (Hrsel : newSelectors r <> []).
  { rewrite Forall_forall in Hsel. now apply Hsel. }
  unfold setFirstSelector.
  destruct (newSelectors r) as [| sel rest] eqn:Er; [congruence |].
  cbn [bind]. eexists. split; [reflexivity |]. cbn [uglyNewRules uglyClassMap].
  split; [| split; [| split; [| split; [| split]]]].
  - intros k Hne Hk. apply keys_delete_other; [assumption |].
    now apply keys_set_incl.
  - apply values_delete. apply values_set; [assumption |]. discriminate.
  - match goal with
    | |- List.length (JsObject.delete key (JsObject.set ?n ?v ?t)) <= _ =>
        pose proof (length_delete_present (JsObject.set n v t) key
                      (keys_set_incl t n v key Hin));
        pose proof (length_set_le t n v)
    end.
    lia.
  - intros Q HQ. apply values_delete. apply values_set; [assumption |].
    simpl. rewrite Forall_forall in HQ. now apply HQ.
  - apply renameInClassMap_shape.
  - apply renameInClassMap_shape.
Qed.

Lemma uglifyLoop_total (ks : list string) :
  NoDup ks ->
  forall st,
    (forall k, In k ks -> In k (JsObject.keys (uglyNewRules st))) ->
    Forall (fun r => newSelectors r <> [])
      (JsObject.values (uglyNewRules st)) ->
    exists st',
      forEach ks uglifyKey st = Normal st' /\
      List.length (uglyNewRules st') <= List.length (uglyNewRules st) /\
      (forall Q : list Declaration -> Prop,
          Forall (fun r => Q (newDeclarations r))
            (JsObject.values (uglyNewRules st)) ->
          Forall (fun r => Q (newDeclarations r))
            (JsObject.values (uglyNewRules st'))) /\
      JsObject.keys (uglyClassMap st') = JsObject.keys (uglyClassMap st) /\
      (forall k,
          option_map (@List.length string)
            (JsObject.get k (uglyClassMap st'))
          = option_map (@List.length string)
              (JsObject.get k (uglyClassMap st))).
Proof.
  induction 1 as [| key ks Hnot Hnd IH]; intros st Hkeys Hsel.
  - exists st. repeat split; auto.
  - destruct (uglifyKey_total st key (Hkeys key (or_introl eq_refl)) Hsel)
      as [st1 [Hstep [Hkeys1 [Hsel1 [Hsize1 [Hdecl1 [Hcm1 Hlen1]]]]]]].
    destruct (IH st1) as [st' [Hrun [Hsize [Hdecl [Hcm Hlen]]]]].
    + intros k Hk. apply Hkeys1.
      * intros ->. contradiction.
      * apply Hkeys. now right.
    + assumption.
    + exists st'. cbn [forEach]. rewrite Hstep. cbn [bind].
      split; [assumption |]. split; [lia |]. split; [| split].
      * intros Q HQ. apply Hdecl. now apply Hdecl1.
      * now rewrite Hcm.
      * intros k. now rewrite Hlen.
Qed.
End UglifyTotal.

Section UglifiedBuild.
Context `{Collaborators}.

Lemma namedByKey_selectors (nr : NewRules) :
  namedByKey nr ->
  Forall (fun r => newSelectors r <> []) (JsObject.values nr).
Proof.
  unfold namedByKey, JsObject.values. intros Hnamed.
  apply Forall_map. revert Hnamed. apply Forall_impl.
  intros [k r] Hr. simpl in *. apply ruleNamed_shape in Hr.
  destruct Hr as [o Ho]. rewrite Ho. discriminate.
Qed.

(** The pass gets through every table the rules loop builds. *)
Lemma uglifyPass_total (cm : ClassMap) (nr : NewRules) :
  JsObject.wf nr -> namedByKey nr ->
  exists cm' nr',
    uglifyPass cm nr = Normal (cm', nr') /\
    List.length nr' <= List.length nr /\
    (forall Q : list Declaration -> Prop,
        Forall (fun r => Q (newDeclarations r)) (JsObject.values nr) ->
        Forall (fun r => Q (newDeclarations r)) (JsObject.values nr')) /\
    JsObject.keys cm' = JsObject.keys cm /\
    (forall k,
        option_map (@List.length string) (JsObject.get k cm')
        = option_map (@List.length string) (JsObject.get k cm)).
Proof.
  intros Hwf Hnamed. unfold uglifyPass.
  destruct (uglifyLoop_total (JsObject.keys nr) Hwf
              {| index := 0; uglyClassMap := cm; uglyNewRules := nr |})
    as [st' [Hrun [Hsize [Hdecl [Hkeys Hlen]]]]].
  - intros k Hk. exact Hk.
  - now apply namedByKey_selectors.
  - rewrite Hrun. cbn [bind].
    exists (uglyClassMap st'), (uglyNewRules st'). auto.
Qed.

Lemma buildTables_uglified (options : Options) (parsedRules : list Rule)
  (cm : ClassMap) (nr : NewRules) :
  buildTables options parsedRules false = Normal (cm, nr) ->
  exists cm' nr',
    buildTables options parsedRules true = Normal (cm', nr') /\
    List.length nr' <= List.length nr /\
    (forall Q : list Declaration -> Prop,
        Forall (fun r => Q (newDeclarations r)) (JsObject.values nr) ->
        Forall (fun r => Q (newDeclarations r)) (JsObject.values nr')) /\
    JsObject.keys cm' = JsObject.keys cm /\
    (forall k,
        option_map (@List.length string) (JsObject.get k cm')
        = option_map (@List.length string) (JsObject.get k cm)).
Proof.
  intros Hbuild. rewrite (buildTables_uglify _ _ _ _ Hbuild).
  apply buildTables_plain in Hbuild.
  destruct Hbuild as [cm0 [nr0 [_ [_ [-> [Hnamed Hwf]]]]]].
  apply uglifyPass_total.
  - now apply RemovePosition_newRules_wf.
  - now apply RemovePosition_newRules_named.
Qed.

Lemma buildTables_true_plain (options : Options) (parsedRules : list Rule)
  (cm' : ClassMap) (nr' : NewRules) :
  buildTables options parsedRules true = Normal (cm', nr') ->
  exists cm nr, buildTables options parsedRules false = Normal (cm, nr).
Proof.
  unfold buildTables.
  destruct (forEach parsedRules (atomizeRule options) ([], []))
    as [[cm0 nr0] | e]; cbn [bind]; [| discriminate].
  intros _. eexists. eexists. reflexivity.
Qed.

Lemma plain_declarations_stripped (options : Options)
  (parsedRules : list Rule) (cm : ClassMap) (nr : NewRules) :
  buildTables options parsedRules false = Normal (cm, nr) ->
  Forall (fun r => Forall (fun d => declarationPosition d = None)
                     (newDeclarations r))
    (JsObject.values nr).
Proof.
  intros Hbuild. apply buildTables_plain in Hbuild.
  destruct Hbuild as [cm0 [nr0 [_ [_ [-> _]]]]].
  unfold JsObject.values, RemovePosition.newRules. rewrite map_map.
  apply Forall_map. apply Forall_forall. intros [k r] _. simpl.
  apply Forall_map. apply Forall_forall. intros d _. reflexivity.
Qed.
End UglifiedBuild.

(** ** Where the names of the class map come from *)

Section NamingFacts.
Context `{Collaborators}.

Lemma includes_beforeColon (s : string) :
  JsString.includes ":" (JsString.beforeColon s) = false.
Proof.
  induction s as [| c s IH]; [reflexivity |].
  rewrite beforeColon_cons. destruct (Ascii.eqb c ":") eqn:E; [reflexivity |].
  simpl. now rewrite E, IH.
Qed.

Lemma selectorTexts_In (sels : list Selector) (text : string) :
  In text (selectorTexts sels) ->
  exists sel first rest o,
    In sel sels /\ sel = first :: rest /\ original first = Some o /\
    text = JsString.beforeColon o.
Proof.
  unfold selectorTexts. intros Hin. apply in_flat_map in Hin.
  destruct Hin as [sel [Hsel Hin]].
  destruct sel as [| first rest]; [contradiction |].
  destruct (original first) as [o |] eqn:Eo; [| contradiction].
  destruct Hin as [<- | []]. exists (first :: rest), first, rest, o. auto.
Qed.

Lemma namings_In (options : Options) (rule : Rule) (k v : string) :
  In (k, v) (namings options rule) ->
  exists d sel first rest o,
    classTargeted rule /\ In d (declarations rule) /\
    In sel (selectors rule) /\ sel = first :: rest /\
    original first = Some o /\ k = JsString.beforeColon o /\
    v = JsString.beforeColon
          (encodedName options (RemovePosition.rule rule)
             (RemovePosition.declaration d)).
Proof.
  unfold namings, classTargeted.
  destruct (firstComponent rule) as [c |]; [| contradiction].
  destruct (isNonClass c) eqn:Enon; [contradiction |].
  intros Hin. apply in_flat_map in Hin. destruct Hin as [d [Hd Hin]].
  apply in_map_iff in Hin. destruct Hin as [text [Heq Htext]].
  inversion Heq. subst. apply selectorTexts_In in Htext.
  destruct Htext as [sel [first [rest [o [Hsel [Hs [Ho Ht]]]]]]].
  exists d, sel, first, rest, o. repeat split; try assumption.
  exists c. auto.
Qed.

Lemma filings_class_In (options : Options) (rule : Rule) (d : Declaration) :
  classTargeted rule -> In d (declarations rule) ->
  In (encodedName options (RemovePosition.rule rule)
        (RemovePosition.declaration d))
    (map fst (filings options rule)).
Proof.
  intros [c [Hc Hnon]] Hd. unfold filings. rewrite Hc, Hnon.
  rewrite map_map. cbn [fst]. apply in_map_iff. exists d. auto.
Qed.

Lemma namesOf_In (k v : string) (pairs : list (string * string)) :
  In v (namesOf k pairs) -> In (k, v) pairs.
Proof.
  unfold namesOf. intros Hin. apply in_map_iff in Hin.
  destruct Hin as [[k0 v0] [Heq Hin]]. simpl in Heq. subst v0.
  apply filter_In in Hin. destruct Hin as [Hin Hk]. simpl in Hk.
  apply String.eqb_eq in Hk. now subst k0.
Qed.

Lemma namesOf_repeat (k v : string) (texts : list string) :
  namesOf k (map (fun text => (text, v)) texts)
  = repeat v (count_occ string_dec texts k).
Proof.
  unfold namesOf. induction texts as [| t texts IH]; simpl; [reflexivity |].
  destruct (string_dec t k) as [-> | Hne].
  - rewrite String.eqb_refl. simpl. now rewrite IH.
  - apply String.eqb_neq in Hne. now rewrite Hne.
Qed.

(** The class names of an entry of the plain class map come from the
    namings of the rules. *)
Lemma plain_classMap_In (options : Options) (parsedRules : list Rule)
  (cm : ClassMap) (nr : NewRules) (k v : string) (arr : list string) :
  buildTables options parsedRules false = Normal (cm, nr) ->
  JsObject.get k cm = Some arr -> In v arr ->
  exists rule, In rule parsedRules /\ In (k, v) (namings options rule).
Proof.
  intros Hbuild Hget Hin. apply plainTables_spec in Hbuild.
  destruct Hbuild as [_ [_ [_ [_ Hcm]]]]. rewrite Hcm in Hget.
  remember (namesOf k (flat_map (namings options) parsedRules))
    as names eqn:En.
  destruct names as [| n names]; [discriminate |].
  inversion Hget. subst arr.
  assert (Hnames : In v (n :: names)) by (apply keepLast_In; exact Hin).
  rewrite En in Hnames. apply namesOf_In in Hnames.
  apply in_flat_map in Hnames. exact Hnames.
Qed.

Lemma plain_classMap_key (options : Options) (parsedRules : list Rule)
  (cm : ClassMap) (nr : NewRules) (k : string) :
  buildTables options parsedRules false = Normal (cm, nr) ->
  In k (JsObject.keys cm) ->
  exists rule v, In rule parsedRules /\ In (k, v) (namings options rule).
Proof.
  intros Hbuild Hin. apply plainTables_spec in Hbuild.
  destruct Hbuild as [_ [_ [_ [Hkeys _]]]]. rewrite Hkeys in Hin.
  apply (proj1 (Set_from_In _ _)) in Hin. apply in_map_iff in Hin.
  destruct Hin as [[k0 v] [Heq Hin]]. simpl in Heq. subst k0.
  apply in_flat_map in Hin. destruct Hin as [rule [Hrule Hin]].
  exists rule, v. auto.
Qed.
End NamingFacts.

(** ** The engine, read off its loops *)

Section EngineExtras.
Context `{Collaborators}.

(** X1. [updateClassMap] throws a [TypeError] exactly when some selector
    has no first component, a first component without [original], or a
    text (cut at its first [":"]) that names an inherited member of the
    class map: a name of [Object.prototype], ["__proto__"] among them,
    that is no key of the class map.  Otherwise it returns the class map
    with the
    class name, cut at its first [":"], appended once per selector to the
    array filed under that selector's text: the keys are the former keys
    and the texts, a text that [n] selectors share gets [n] copies, and
    the other entries are left as they were. *)
Theorem X1_updateClassMap_pushes_or_throws (cm : ClassMap)
  (sels : list Selector) (enc : string) :
  (forallb (readableIn cm) sels = false ->
   updateClassMap cm sels enc = Throw TypeError) /\
  (forallb (readableIn cm) sels = true ->
   exists cm',
     updateClassMap cm sels enc = Normal cm' /\
     (forall k, In k (JsObject.keys cm') <->
                In k (JsObject.keys cm) \/ In k (selectorTexts sels)) /\
     forall k,
       JsObject.get k cm' =
       match count_occ string_dec (selectorTexts sels) k with
       | 0 => JsObject.get k cm
       | S n =>
           Some (match JsObject.get k cm with
                 | Some arr => arr
                 | None => []
                 end ++ repeat (JsString.beforeColon enc) (S n))
       end).
Proof.
  rewrite updateClassMap_spec. split; intros ->; [reflexivity |].
  eexists. split; [reflexivity |]. split.
  - intros k. rewrite pushName_keys, map_map. cbn [fst]. rewrite map_id.
    rewrite fold_Set_add_In. tauto.
  - intros k. rewrite pushName_get, namesOf_repeat.
    destruct (count_occ string_dec (selectorTexts sels) k); reflexivity.
Qed.

(** X2. On parsed rules that carry a declarations array, and with either
    value of the uglify flag, the engine throws a [TypeError] when some
    rule has no first selector component, or is class-targeted with at
    least one declaration and has a selector without a first component,
    with a first component without [original], or with a text (cut at its
    first [":"]) that is a name of [Object.prototype].  On every other
    list of rules it returns its tables, provided no rule is filed under
    ["hasOwnProperty"], the entry that would shadow the method the second
    position sweep calls on the table. *)
Theorem X2_engine_throws_exactly_on_unreadable_rules (options : Options)
  (parsedRules : list Rule) (uglify : bool) :
  (forallb atomizable parsedRules = false ->
   buildTables options parsedRules uglify = Throw TypeError) /\
  (forallb atomizable parsedRules = true ->
   existsb (String.eqb "hasOwnProperty")
     (map fst (flat_map (filings options) parsedRules)) = false ->
   exists cm nr, buildTables options parsedRules uglify = Normal (cm, nr)).
Proof.
  split.
  - intros Hbad. unfold buildTables.
    rewrite rulesLoop_spec by apply cleanMap_nil. now rewrite Hbad.
  - intros Hok _.
    assert (Hplain : exists cm nr,
               buildTables options parsedRules false = Normal (cm, nr)).
    { rewrite buildTables_plain_spec, Hok. eexists. eexists. reflexivity. }
    destruct uglify; [| exact Hplain].
    destruct Hplain as [cm [nr Hplain]].
    destruct (buildTables_uglified _ _ _ _ Hplain) as [cm' [nr' [Hrun _]]].
    exists cm', nr'. exact Hrun.
Qed.

(** X3. In a call without uglification in which every key filed is a
    [tableKey] (not written with digits only, and none of ["__proto__"],
    ["position"] and ["hasOwnProperty"]), the table of new rules lists
    its keys in the order in which they were first filed, each once; the
    rule under a key is the one filed last under it, and has that key as
    its single selector. *)
Theorem X3_table_in_filing_order (options : Options)
  (parsedRules : list Rule) (cm : ClassMap) (nr : NewRules) :
  buildTables options parsedRules false = Normal (cm, nr) ->
  let entries := flat_map (filings options) parsedRules in
  forallb tableKey (map fst entries) = true ->
  JsObject.keys nr = Set_from (map fst entries) /\
  (forall k, JsObject.get k nr = JsObject.get k (rev entries)) /\
  NoDup (JsObject.keys nr) /\
  (forall k r, JsObject.get k nr = Some r -> ruleNamed k r = true) /\
  List.length (outputRules nr) = List.length (Set_from (map fst entries)).
Proof.
  intros Hbuild entries _.
  destruct (plainTables_spec _ _ _ _ Hbuild) as [_ [Hkeys [Hget _]]].
  apply buildTables_plain in Hbuild.
  destruct Hbuild as [cm0 [nr0 [_ [_ [Hnr [Hnamed Hwf]]]]]].
  split; [exact Hkeys |]. split; [exact Hget |]. split; [| split].
  - rewrite Hnr. now apply RemovePosition_newRules_wf.
  - intros k r Hr. apply get_In in Hr.
    assert (Hall : namedByKey nr)
      by (rewrite Hnr; now apply RemovePosition_newRules_named).
    unfold namedByKey in Hall. rewrite Forall_forall in Hall.
    apply (Hall (k, r) Hr).
  - fold entries in Hkeys. rewrite <- Hkeys.
    unfold outputRules, JsObject.values, JsObject.keys.
    now rewrite !length_map.
Qed.

(** X4. In a call without uglification in which no selector text is
    written with digits only, the class map lists the selector texts (cut
    at their first [":"]) of the class-targeted rules in the order in
    which they were first met, and the entry of a text holds the class
    names filed for it, one per declaration and selector in source order
    across all rules, each name kept once at its last occurrence. *)
Theorem X4_classMap_lists_names_in_order (options : Options)
  (parsedRules : list Rule) (cm : ClassMap) (nr : NewRules) :
  buildTables options parsedRules false = Normal (cm, nr) ->
  let pairs := flat_map (namings options) parsedRules in
  forallb (fun text => negb (indexLike text)) (map fst pairs) = true ->
  JsObject.keys cm = Set_from (map fst pairs) /\
  forall k, JsObject.get k cm =
            match namesOf k pairs with
            | [] => None
            | names => Some (keepLastOccurrences names)
            end.
Proof.
  intros Hbuild pairs _.
  destruct (plainTables_spec _ _ _ _ Hbuild) as [_ [_ [_ [Hkeys Hget]]]].
  split; assumption.
Qed.

(** X5. In a call without uglification no key and no class name of the
    class map contains a [":"]. *)
Theorem X5_classMap_has_no_colon (options : Options)
  (parsedRules : list Rule) (cm : ClassMap) (nr : NewRules) :
  buildTables options parsedRules false = Normal (cm, nr) ->
  forall k arr, JsObject.get k cm = Some arr ->
    JsString.includes ":" k = false /\
    forall v, In v arr -> JsString.includes ":" v = false.
Proof.
  intros Hbuild k arr Hget. split.
  - destruct (plain_classMap_key _ _ _ _ k Hbuild) as [rule [v [_ Hin]]].
    { eapply get_Some_In. eassumption. }
    apply namings_In in Hin.
    destruct Hin as [d [sel [first [rest [o [_ [_ [_ [_ [_ [-> _]]]]]]]]]]].
    apply includes_beforeColon.
  - intros v Hv.
    destruct (plain_classMap_In _ _ _ _ _ _ _ Hbuild Hget Hv)
      as [rule [_ Hin]].
    apply namings_In in Hin.
    destruct Hin as [d [sel [first [rest [o [_ [_ [_ [_ [_ [_ ->]]]]]]]]]]].
    apply includes_beforeColon.
Qed.

(** X6. In a call without uglification every class name of the class map
    is the name, cut at its first [":"], of a rule of the output. *)
Theorem X6_classMap_names_are_emitted (options : Options)
  (parsedRules : list Rule) (cm : ClassMap) (nr : NewRules) :
  buildTables options parsedRules false = Normal (cm, nr) ->
  forall k arr v, JsObject.get k cm = Some arr -> In v arr ->
    exists key r,
      In r (outputRules nr) /\ ruleNamed key r = true /\
      JsString.beforeColon key = v.
Proof.
  intros Hbuild k arr v Hget Hv.
  destruct (plain_classMap_In _ _ _ _ _ _ _ Hbuild Hget Hv)
    as [rule [Hrule Hin]].
  apply namings_In in Hin.
  destruct Hin as [d [sel [first [rest [o [Hclass [Hd [_ [_ [_ [_ ->]]]]]]]]]]].
  destruct (atomized_in_tables _ _ _ _ _ _ Hbuild Hrule Hclass Hd)
    as [_ [_ [r [Hr Hnamed]]]].
  eexists. exists r. repeat split; eassumption.
Qed.

(** X7. In a call without uglification every key of the class map is the
    text, cut at its first [":"], of a selector of a class-targeted rule
    that has a declaration; a stylesheet of passthrough rules only gives an
    empty class map. *)
Theorem X7_classMap_keys_come_from_class_rules (options : Options)
  (parsedRules : list Rule) (cm : ClassMap) (nr : NewRules) :
  buildTables options parsedRules false = Normal (cm, nr) ->
  (forall k, In k (JsObject.keys cm) ->
     exists rule d sel first rest o,
       In rule parsedRules /\ classTargeted rule /\
       In d (declarations rule) /\ In sel (selectors rule) /\
       sel = first :: rest /\ original first = Some o /\
       k = JsString.beforeColon o) /\
  ((forall rule, In rule parsedRules -> passthrough rule) -> cm = []).
Proof.
  intros Hbuild.
  assert (Hkeys : forall k, In k (JsObject.keys cm) ->
     exists rule d sel first rest o,
       In rule parsedRules /\ classTargeted rule /\
       In d (declarations rule) /\ In sel (selectors rule) /\
       sel = first :: rest /\ original first = Some o /\
       k = JsString.beforeColon o).
  { intros k Hk.
    destruct (plain_classMap_key _ _ _ _ k Hbuild Hk) as [rule [v [Hrule Hin]]].
    apply namings_In in Hin.
    destruct Hin as [d [sel [first [rest [o [Hc [Hd [Hs [Hsel [Ho [Hk' _]]]]]]]]]]].
    exists rule, d, sel, first, rest, o. repeat split; assumption. }
  split; [exact Hkeys |].
  intros Hall. destruct cm as [| [k arr] cm]; [reflexivity |].
  destruct (Hkeys k (or_introl eq_refl))
    as [rule [_ [_ [_ [_ [_ [Hrule [[c [Hc Hnon]] _]]]]]]]].
  destruct (Hall rule Hrule) as [c' [Hc' Hnon']].
  rewrite Hc in Hc'. inversion Hc'. subst c'. congruence.
Qed.
End EngineExtras.

(** ** The parser on one node *)

Section ParserFacts.
Context `{Collaborators}.

Lemma attachOriginal_spec (parsed : list Selector) :
  forall texts parsed',
    attachOriginal parsed texts = Normal parsed' ->
    List.length parsed' = List.length parsed /\
    Forall (fun sel => sel <> []) parsed' /\
    map firstOriginal parsed'
    = map Some (firstn (List.length parsed) texts)
      ++ repeat None (List.length parsed - List.length texts) /\
    map (map kindOf) parsed' = map (map kindOf) parsed.
Proof.
  induction parsed as [| sel parsed IH]; intros texts parsed' Hrun.
  - inversion Hrun. repeat split; constructor.
  - cbn [attachOriginal] in Hrun. destruct sel as [| first more];
      [discriminate |].
    destruct (attachOriginal parsed (tl texts)) as [rest' |] eqn:Erest;
      cbn [bind] in Hrun; [| discriminate].
    inversion Hrun. subst parsed'. clear Hrun.
    destruct (IH _ _ Erest) as [Hlen [Hne [Horig Hkind]]].
    split; [simpl; now rewrite Hlen |].
    split; [constructor; [discriminate | assumption] |].
    split.
    + cbn [map firstOriginal original List.length]. rewrite Horig.
      destruct texts as [| t texts]; cbn [hd_error tl firstn map].
      * rewrite firstn_nil. simpl. now rewrite Nat.sub_0_r.
      * reflexivity.
    + cbn [map]. now rewrite Hkind.
Qed.

Lemma attachOriginal_total (parsed : list Selector) :
  Forall (fun sel => sel <> []) parsed ->
  forall texts, exists parsed', attachOriginal parsed texts = Normal parsed'.
Proof.
  induction 1 as [| sel parsed Hsel Hrest IH]; intros texts.
  - exists []. reflexivity.
  - destruct sel as [| first more]; [congruence |].
    destruct (IH (tl texts)) as [rest' Hrun].
    cbn [attachOriginal]. rewrite Hrun. eexists. reflexivity.
Qed.

Lemma attachOriginal_throws (parsed : list Selector) :
  ~ Forall (fun sel => sel <> []) parsed ->
  forall texts, attachOriginal parsed texts = Throw TypeError.
Proof.
  induction parsed as [| sel parsed IH]; intros Hbad texts.
  - exfalso. apply Hbad. constructor.
  - destruct sel as [| first more]; [reflexivity |].
    cbn [attachOriginal]. rewrite IH; [reflexivity |].
    intros Hall. apply Hbad. constructor; [discriminate | assumption].
Qed.

Lemma mapM_throws {A B : Type} (f : A -> Completion B) (l : list A) (x : A) :
  In x l -> (exists e, f x = Throw e) -> exists e, mapM f l = Throw e.
Proof.
  intros Hin [e He]. induction l as [| y l IH]; [contradiction |].
  cbn [mapM]. destruct Hin as [-> | Hin].
  - rewrite He. exists e. reflexivity.
  - destruct (f y) as [b | e']; cbn [bind]; [| now exists e'].
    destruct (IH Hin) as [e1 He1]. rewrite He1. now exists e1.
Qed.
End ParserFacts.

(** ** The uglifier pass and the deduplication *)

Section ObjectDeleteFacts.
Context {V : Type}.
Implicit Types (o : JsObject.t V) (k : string) (v : V).

Lemma delete_set_same o k v :
  JsObject.delete k (JsObject.set k v o) = JsObject.delete k o.
Proof.
  induction o as [| [k0 v0] o IH]; simpl.
  - now rewrite String.eqb_refl.
  - destruct (String.eqb k0 k) eqn:E; simpl; rewrite E;
      [reflexivity | now rewrite IH].
Qed.

Lemma keys_delete_absent o k :
  JsObject.wf o -> ~ In k (JsObject.keys (JsObject.delete k o)).
Proof.
  unfold JsObject.wf. induction o as [| [k0 v0] o IH]; simpl; [auto |].
  intros Hwf. inversion Hwf as [| ? ? Hnot Hrest]. subst.
  destruct (String.eqb k0 k) eqn:E.
  - apply String.eqb_eq in E. now subst k0.
  - simpl. intros [Heq | Hin].
    + apply String.eqb_neq in E. contradiction.
    + now apply IH.
Qed.

Lemma set_get_same o k v :
  JsObject.get k o = Some v -> JsObject.set k v o = o.
Proof.
  induction o as [| [k0 v0] o IH]; simpl; [discriminate |].
  destruct (String.eqb k0 k) eqn:E.
  - intros Heq. now inversion Heq.
  - intros Hget. now rewrite IH.
Qed.
End ObjectDeleteFacts.

Lemma keepLast_length (l : list string) :
  List.length (keepLastOccurrences l) <= List.length l.
Proof.
  induction l as [| x l IH]; simpl; [lia |].
  destruct (existsb (String.eqb x) l); simpl; lia.
Qed.

Lemma fold_dedupEntry_fixed (ks : list string) (cm : ClassMap) :
  (forall k arr, JsObject.get k cm = Some arr -> uniqueFromEnd arr = arr) ->
  fold_left dedupEntry ks cm = cm.
Proof.
  intros Hfixed. induction ks as [| k ks IH]; simpl; [reflexivity |].
  assert (Hk : dedupEntry cm k = cm).
  { unfold dedupEntry. destruct (JsObject.get k cm) as [arr |] eqn:E;
      [| reflexivity].
    rewrite (Hfixed k arr E). now apply set_get_same. }
  rewrite Hk. exact IH.
Qed.

Section UglifyExtras.
Context `{Collaborators}.

(** X8. The uglifier pass gets through every table the rules loop builds,
    whatever tokens the generator returns: when the call without
    uglification returns, so does the call with it; the class map keeps its
    keys, in order, and the length of every entry, and the output has no
    more rules than before and no declaration list that was not there. *)
Theorem X8_uglifier_pass_never_throws (options : Options)
  (parsedRules : list Rule) (cm : ClassMap) (nr : NewRules) :
  buildTables options parsedRules false = Normal (cm, nr) ->
  exists cm' nr',
    buildTables options parsedRules true = Normal (cm', nr') /\
    List.length (outputRules nr') <= List.length (outputRules nr) /\
    (forall r', In r' (outputRules nr') ->
       exists r, In r (outputRules nr) /\
                 newDeclarations r' = newDeclarations r) /\
    JsObject.keys cm' = JsObject.keys cm /\
    (forall k,
        option_map (@List.length string) (JsObject.get k cm')
        = option_map (@List.length string) (JsObject.get k cm)).
Proof.
  intros Hbuild.
  destruct (buildTables_uglified _ _ _ _ Hbuild)
    as [cm' [nr' [Hrun [Hsize [Hdecl [Hkeys Hlen]]]]]].
  exists cm', nr'. split; [exact Hrun |]. split; [| split; [| split]].
  - unfold outputRules, JsObject.values. now rewrite !length_map.
  - intros r' Hr'.
    specialize (Hdecl (fun ds => exists r, In r (outputRules nr) /\
                                           ds = newDeclarations r)).
    cbv beta in Hdecl. rewrite !Forall_forall in Hdecl.
    apply Hdecl; [| exact Hr']. intros r Hr. now exists r.
  - exact Hkeys.
  - exact Hlen.
Qed.

(** X9. With either value of the uglify flag, no declaration of a rule of
    the output carries position metadata. *)
Theorem X9_output_has_no_positions (options : Options)
  (parsedRules : list Rule) (uglify : bool) (cm : ClassMap) (nr : NewRules) :
  buildTables options parsedRules uglify = Normal (cm, nr) ->
  forall r d, In r (outputRules nr) -> In d (newDeclarations r) ->
    declarationPosition d = None.
Proof.
  intros Hbuild r d Hr Hd.
  assert (Hall : Forall (fun r => Forall (fun d => declarationPosition d = None)
                                    (newDeclarations r))
                   (JsObject.values nr)).
  { destruct uglify.
    - destruct (buildTables_true_plain _ _ _ _ Hbuild) as [cm0 [nr0 Hplain]].
      destruct (buildTables_uglified _ _ _ _ Hplain)
        as [cm' [nr' [Hrun [_ [Hdecl _]]]]].
      rewrite Hrun in Hbuild. inversion Hbuild. subst cm' nr'.
      apply (Hdecl (Forall (fun d => declarationPosition d = None))).
      now apply (plain_declarations_stripped _ _ _ _ Hplain).
    - now apply (plain_declarations_stripped _ _ _ _ Hbuild). }
  rewrite Forall_forall in Hall. specialize (Hall r Hr).
  rewrite Forall_forall in Hall. now apply Hall.
Qed.

(** X10. The engine reads no position metadata: two lists of parsed rules
    that are equal once their positions are removed give the same tables,
    and so the same class map and output, with either value of the uglify
    flag. *)
Theorem X10_positions_are_never_read (options : Options)
  (rules1 rules2 : list Rule) (uglify : bool) :
  map RemovePosition.rule rules1 = map RemovePosition.rule rules2 ->
  buildTables options rules1 uglify = buildTables options rules2 uglify /\
  atomize options rules1 uglify = atomize options rules2 uglify.
Proof.
  intros Heq.
  assert (Htables : buildTables options rules1 uglify
                    = buildTables options rules2 uglify).
  { rewrite <- (buildTables_stripped options rules1),
            <- (buildTables_stripped options rules2).
    now rewrite Heq. }
  split; [exact Htables |]. unfold atomize. now rewrite Htables.
Qed.

(** X11. When the new name of a class-based key, the token drawn followed
    by the key's pseudo suffix, is the key itself, the turn of the pass
    assigns the rule to its own key and then deletes that key: the rule
    leaves the table. *)
Theorem X11_uglify_token_equal_to_key_drops_rule (st : UglifyState)
  (key : string) (r : NewRule) :
  classBased key = true ->
  JsObject.get key (uglyNewRules st) = Some r ->
  newSelectors r <> [] ->
  (fst (cssUglifier (index st)) ++ pseudoSuffix key)%string = key ->
  exists st',
    uglifyKey st key = Normal st' /\
    index st' = snd (cssUglifier (index st)) /\
    uglyNewRules st' = JsObject.delete key (uglyNewRules st) /\
    (JsObject.wf (uglyNewRules st) ->
     ~ In key (JsObject.keys (uglyNewRules st')) /\
     S (List.length (uglyNewRules st')) = List.length (uglyNewRules st)).
Proof.
  intros Hclass Hget Hsel Hsame. unfold uglifyKey, classBased in *.
  rewrite Hclass, Hget, Hsame. unfold setFirstSelector.
  destruct (newSelectors r) as [| sel rest]; [congruence |].
  cbn [bind]. eexists. split; [reflexivity |].
  cbn [index uglyNewRules]. split; [reflexivity |].
  rewrite delete_set_same. split; [reflexivity |].
  intros Hwf. split.
  - now apply keys_delete_absent.
  - apply length_delete_present. eapply get_Some_In. eassumption.
Qed.

(** X12. When no key of the table of new rules starts with ["."], the
    uglifier pass draws no token and changes nothing: the call with
    uglification returns the tables of the call without it. *)
Theorem X12_uglify_without_class_keys_changes_nothing (options : Options)
  (parsedRules : list Rule) (cm : ClassMap) (nr : NewRules) :
  buildTables options parsedRules false = Normal (cm, nr) ->
  (forall k, In k (JsObject.keys nr) -> classBased k = false) ->
  buildTables options parsedRules true = Normal (cm, nr).
Proof.
  intros Hbuild Hnone. rewrite (buildTables_uglify _ _ _ _ Hbuild).
  unfold uglifyPass.
  assert (Hloop : forall ks st,
             (forall k, In k ks -> classBased k = false) ->
             forEach ks uglifyKey st = Normal st).
  { induction ks as [| k ks IH]; intros st Hks; [reflexivity |].
    cbn [forEach]. rewrite uglifyKey_other by (apply Hks; now left).
    cbn [bind]. apply IH. intros k' Hk'. apply Hks. now right. }
  now rewrite Hloop.
Qed.

(** X13. [removeIdenticalProperties] is idempotent, and no entry of the
    class map gets longer. *)
Theorem X13_removeIdenticalProperties_idempotent (cm : ClassMap) :
  removeIdenticalProperties (removeIdenticalProperties cm)
  = removeIdenticalProperties cm /\
  forall k arr, JsObject.get k cm = Some arr ->
    exists arr',
      JsObject.get k (removeIdenticalProperties cm) = Some arr' /\
      List.length arr' <= List.length arr.
Proof.
  split.
  - unfold removeIdenticalProperties at 1. apply fold_dedupEntry_fixed.
    intros k arr. rewrite removeIdenticalProperties_get.
    destruct (JsObject.get k cm) as [arr0 |]; simpl; [| discriminate].
    intros Heq. inversion Heq. apply uniqueFromEnd_idempotent.
  - intros k arr Hget. exists (uniqueFromEnd arr).
    rewrite removeIdenticalProperties_get, Hget. split; [reflexivity |].
    rewrite uniqueFromEnd_keepLast. apply keepLast_length.
Qed.
End UglifyExtras.

(** ** The parser and the engine together *)

Section ParserExtras.
Context `{Collaborators}.

Lemma cssStripping_css (options : Options) (input : option string)
  (uglify : bool) :
  cssStripping options input uglify = css options input uglify.
Proof.
  unfold cssStripping, css, cssWith, cssParserStripping, cssParser.
  destruct (String.eqb (orEmpty input) ""); [reflexivity |].
  destruct (cssParse (orEmpty input) (negb (verbose options)))
    as [[rawRules |] | e]; simpl; try reflexivity.
  rewrite mapM_parseSelectors_stripped.
  destruct (mapM parseSelectors rawRules) as [parsedRules | e]; simpl;
    [| reflexivity].
  now rewrite atomize_stripped.
Qed.

(** X14. When the parser gets through a style rule, it keeps the rule's
    declarations and position, returns as many selectors as the selector
    parser did, each with a first component, sets the [original] of the
    first component of the i-th selector to the i-th selector text
    ([undefined] when there are more selectors than texts), and changes
    nothing else of the components; it throws a [TypeError] for a node
    without selectors and when the selector parser returns an empty
    selector. *)
Theorem X14_parser_attaches_original (r : RawRule) :
  (rawSelectors r = None -> parseSelectors r = Throw TypeError) /\
  (forall texts parsed,
      rawSelectors r = Some texts ->
      selectorParse (JsString.join "," texts) = Normal parsed ->
      ~ Forall (fun sel => sel <> []) parsed ->
      parseSelectors r = Throw TypeError) /\
  (forall texts rule,
      rawSelectors r = Some texts -> parseSelectors r = Normal rule ->
      exists parsed,
        selectorParse (JsString.join "," texts) = Normal parsed /\
        declarations rule = rawDeclarations r /\
        rulePosition rule = rawPosition r /\
        List.length (selectors rule) = List.length parsed /\
        Forall (fun sel => sel <> []) (selectors rule) /\
        map firstOriginal (selectors rule)
        = map Some (firstn (List.length parsed) texts)
          ++ repeat None (List.length parsed - List.length texts) /\
        map (map kindOf) (selectors rule) = map (map kindOf) parsed).
Proof.
  unfold parseSelectors. split; [| split].
  - now intros ->.
  - intros texts parsed -> -> Hbad. cbn [bind].
    now rewrite (attachOriginal_throws parsed Hbad).
  - intros texts rule ->.
    destruct (selectorParse (JsString.join "," texts)) as [parsed | e];
      cbn [bind]; [| discriminate].
    destruct (attachOriginal parsed texts) as [parsed' | e] eqn:Erun;
      cbn [bind]; [| discriminate].
    intros Heq. inversion Heq. subst rule. clear Heq.
    destruct (attachOriginal_spec _ _ _ Erun) as [Hlen [Hne [Horig Hkind]]].
    exists parsed. cbn [selectors declarations rulePosition].
    repeat split; assumption.
Qed.

(** X15. When the tree [css.parse] returns has a node without selectors (a
    comment or an at-rule), the parser throws, with either version of it,
    and the call reports the exception, then the input, and returns the
    empty result. *)
Theorem X15_node_without_selectors_gives_empty_result (options : Options)
  (input : option string) (uglify : bool) (rawRules : list RawRule)
  (node : RawRule) :
  orEmpty input <> "" ->
  cssParse (orEmpty input) (negb (verbose options)) = Normal (Some rawRules) ->
  In node rawRules -> rawSelectors node = None ->
  exists e,
    css options input uglify =
      ([ReportError "Error parsing CSS" e;
        ReportInput "Error parsing CSS" (orEmpty input)],
       Normal {| classMap := []; output := "" |}) /\
    cssStripping options input uglify = css options input uglify.
Proof.
  intros Hinput Hparse Hnode Hnone.
  destruct (mapM_throws parseSelectors rawRules node Hnode) as [e He].
  { exists TypeError. unfold parseSelectors. now rewrite Hnone. }
  exists e. split; [| apply cssStripping_css].
  unfold css. apply (cssWith_throw _ _ _ _ []).
  unfold cssParser. apply String.eqb_neq in Hinput. rewrite Hinput.
  rewrite Hparse. cbn [bind]. now rewrite He.
Qed.
End ParserExtras.

(** ** Concrete runs of the further properties *)

Lemma X1_updateClassMap_witness :
  updateClassMap []
    [Sample.classSelector ".a"; Sample.classSelector "constructor:hover"]
    ".rp__color__--COLONred"
  = Throw TypeError /\
  exists cm',
    updateClassMap [(".a", [".rp__margin__--COLON0"])]
      [Sample.classSelector ".a:hover"; Sample.classSelector ".b";
       Sample.classSelector ".a"]
      ".rp__color__--COLONred:hover"
    = Normal cm' /\
    JsObject.get ".a" cm'
    = Some [".rp__margin__--COLON0"; ".rp__color__--COLONred";
            ".rp__color__--COLONred"].
Proof.
  split.
  - exact (proj1 (X1_updateClassMap_pushes_or_throws []
                    [Sample.classSelector ".a";
                     Sample.classSelector "constructor:hover"]
                    ".rp__color__--COLONred") eq_refl).
  - destruct (proj2 (X1_updateClassMap_pushes_or_throws
                       [(".a", [".rp__margin__--COLON0"])]
                       [Sample.classSelector ".a:hover";
                        Sample.classSelector ".b";
                        Sample.classSelector ".a"]
                       ".rp__color__--COLONred:hover") eq_refl)
      as [cm' [Hrun [_ Hget]]].
    exists cm'. split; [exact Hrun |]. exact (Hget ".a").
Defined.

Lemma X2_engine_throws_witness :
  (exists cm nr,
      @buildTables Sample.collaborators true
        (Sample.parsed ".a:hover { color:red; }") true = Normal (cm, nr)) /\
  @buildTables Sample.collaborators true
    [{| selectors := [Sample.classSelector "toString"];
        declarations := [Sample.decl "color" "red" None];
        rulePosition := None |}] true
  = Throw TypeError.
Proof.
  split.
  - exact (proj2 (@X2_engine_throws_exactly_on_unreadable_rules
                    Sample.collaborators true
                    (Sample.parsed ".a:hover { color:red; }") true)
             eq_refl eq_refl).
  - exact (proj1 (@X2_engine_throws_exactly_on_unreadable_rules
                    Sample.collaborators true
                    [{| selectors := [Sample.classSelector "toString"];
                        declarations := [Sample.decl "color" "red" None];
                        rulePosition := None |}] true) eq_refl).
Defined.

Lemma X3_table_in_filing_order_witness :
  exists nr,
    @buildTables Sample.collaborators true
      (Sample.parsed
         ".a { color:red; margin:0; } .b:hover { color:red; } p { margin:0; }")
      false = Normal ([(".a", [".rp__color__--COLONred";
                               ".rp__margin__--COLON0"]);
                       (".b", [".rp__color__--COLONred___-HOVER"])], nr) /\
    JsObject.keys nr
    = [".rp__color__--COLONred"; ".rp__margin__--COLON0";
       ".rp__color__--COLONred___-HOVER:hover"; "p"].
Proof.
  eexists. split; [reflexivity |].
  exact (proj1 (@X3_table_in_filing_order Sample.collaborators true
                  (Sample.parsed
                     ".a { color:red; margin:0; } .b:hover { color:red; } p { margin:0; }")
                  _ _ eq_refl eq_refl)).
Defined.

Lemma X4_classMap_lists_names_witness :
  exists cm nr,
    @buildTables Sample.collaborators true
      (Sample.parsed ".a { color:red; color:red; }") false
    = Normal (cm, nr) /\
    JsObject.get ".a" cm = Some [".rp__color__--COLONred"].
Proof.
  eexists. eexists. split; [reflexivity |].
  exact (proj2 (@X4_classMap_lists_names_in_order Sample.collaborators true
                  (Sample.parsed ".a { color:red; color:red; }")
                  _ _ eq_refl eq_refl) ".a").
Defined.

Lemma X5_classMap_has_no_colon_witness :
  JsString.includes ":" ".a" = false /\
  JsString.includes ":" ".rp__color__--COLONred___-HOVER" = false.
Proof.
  destruct (@X5_classMap_has_no_colon Sample.collaborators true
              (Sample.parsed ".a:hover { color:red; }")
              _ _ eq_refl ".a" _ eq_refl) as [Hkey Hnames].
  split; [exact Hkey |]. apply Hnames. now left.
Defined.

Lemma X6_classMap_names_are_emitted_witness :
  exists key r,
    In r (outputRules
            [(".rp__color__--COLONred___-HOVER:hover",
              {| newSelectors :=
                   [[Some ".rp__color__--COLONred___-HOVER:hover"]];
                 newDeclarations := [Sample.decl "color" "red" None] |})]) /\
    ruleNamed key r = true /\
    JsString.beforeColon key = ".rp__color__--COLONred___-HOVER".
Proof.
  apply (@X6_classMap_names_are_emitted Sample.collaborators true
           (Sample.parsed ".a:hover { color:red; }")
           [(".a", [".rp__color__--COLONred___-HOVER"])] _ eq_refl
           ".a" [".rp__color__--COLONred___-HOVER"]).
  - reflexivity.
  - now left.
Defined.

Lemma X7_classMap_keys_witness :
  (exists rule d sel first rest o,
      In rule (Sample.parsed ".a:hover { color:red; }") /\
      classTargeted rule /\ In d (declarations rule) /\
      In sel (selectors rule) /\ sel = first :: rest /\
      original first = Some o /\ ".a" = JsString.beforeColon o) /\
  fst (@nil (string * list string),
       [("div", {| newSelectors := [[Some "div"]];
                   newDeclarations := [Sample.decl "margin" "0" None] |})])
  = [].
Proof.
  split.
  - apply (proj1 (@X7_classMap_keys_come_from_class_rules
                    Sample.collaborators true
                    (Sample.parsed ".a:hover { color:red; }")
                    [(".a", [".rp__color__--COLONred___-HOVER"])] _ eq_refl)).
    now left.
  - apply (proj2 (@X7_classMap_keys_come_from_class_rules
                    Sample.collaborators true
                    (Sample.parsed "div { color:red; } div { margin:0; }")
                    [] _ eq_refl)).
    intros rule [<- | [<- | []]]; eexists; split; reflexivity.
Defined.

Lemma X8_uglifier_pass_never_throws_witness :
  exists cm' nr',
    @buildTables Sample.collaborators true
      (Sample.parsed ".a { color:red; } .b { color:red; }") true
    = Normal (cm', nr') /\
    JsObject.keys cm' = [".a"; ".b"].
Proof.
  destruct (@X8_uglifier_pass_never_throws Sample.collaborators true
              (Sample.parsed ".a { color:red; } .b { color:red; }")
              _ _ eq_refl) as [cm' [nr' [Hrun [_ [_ [Hkeys _]]]]]].
  exists cm', nr'. split; [exact Hrun | exact Hkeys].
Defined.

Lemma X9_output_has_no_positions_witness :
  Forall (fun d => declarationPosition d = None)
    (flat_map newDeclarations
       (outputRules
          [(".rp__0",
            {| newSelectors := [[Some ".rp__0"]];
               newDeclarations := [Sample.decl "color" "red" None] |})])).
Proof.
  apply Forall_forall. intros d Hd. apply in_flat_map in Hd.
  destruct Hd as [r [Hr Hd]].
  exact (@X9_output_has_no_positions Sample.collaborators true
           (Sample.parsed ".a { color:red; } .b { color:red; }") true
           [(".a", [".rp__0"]); (".b", [".rp__0"])] _ eq_refl r d Hr Hd).
Defined.

Lemma X10_positions_are_never_read_witness :
  @atomize Sample.collaborators true
    (Sample.parsed ".a:hover { color:red; }") true
  = @atomize Sample.collaborators true
      (map RemovePosition.rule (Sample.parsed ".a:hover { color:red; }"))
      true.
Proof.
  exact (proj2 (@X10_positions_are_never_read Sample.collaborators true
                  (Sample.parsed ".a:hover { color:red; }")
                  (map RemovePosition.rule
                     (Sample.parsed ".a:hover { color:red; }"))
                  true eq_refl)).
Defined.

Lemma X11_uglify_token_equal_to_key_witness :
  exists st',
    @uglifyKey Sample.collaborators
      {| index := 0;
         uglyClassMap := [(".a", [".rp__0"])];
         uglyNewRules :=
           [(".rp__0", {| newSelectors := [[Some ".rp__0"]];
                          newDeclarations :=
                            [Sample.decl "color" "red" None] |})] |}
      ".rp__0" = Normal st' /\
    uglyNewRules st' = [].
Proof.
  destruct (@X11_uglify_token_equal_to_key_drops_rule Sample.collaborators
              {| index := 0;
                 uglyClassMap := [(".a", [".rp__0"])];
                 uglyNewRules :=
                   [(".rp__0", {| newSelectors := [[Some ".rp__0"]];
                                  newDeclarations :=
                                    [Sample.decl "color" "red" None] |})] |}
              ".rp__0"
              {| newSelectors := [[Some ".rp__0"]];
                 newDeclarations := [Sample.decl "color" "red" None] |})
    as [st' [Hrun [_ [Htable _]]]].
  - reflexivity.
  - reflexivity.
  - discriminate.
  - reflexivity.
  - exists st'. split; [exact Hrun | exact Htable].
Defined.

Lemma X12_uglify_without_class_keys_witness :
  @buildTables Sample.collaborators true
    (Sample.parsed "div { color:red; } div { margin:0; }") true
  = Normal ([], [("div", {| newSelectors := [[Some "div"]];
                            newDeclarations :=
                              [Sample.decl "margin" "0" None] |})]).
Proof.
  apply (@X12_uglify_without_class_keys_changes_nothing Sample.collaborators).
  - reflexivity.
  - intros k [<- | []]. reflexivity.
Defined.

Lemma X13_removeIdenticalProperties_witness :
  exists arr',
    JsObject.get ".a"
      (removeIdenticalProperties [(".a", ["x"; "y"; "x"])]) = Some arr' /\
    List.length arr' <= 3.
Proof.
  exact (proj2 (X13_removeIdenticalProperties_idempotent
                  [(".a", ["x"; "y"; "x"])]) ".a" ["x"; "y"; "x"] eq_refl).
Defined.

Lemma X14_parser_attaches_original_witness :
  exists rule,
    @parseSelectors Sample.collaborators
      (Sample.raw ["h1"; "h2"] [Sample.decl "color" "red" None] None)
    = Normal rule /\
    map firstOriginal (selectors rule) = [Some "h1"; Some "h2"].
Proof.
  eexists. split; [reflexivity |].
  destruct (proj2 (proj2 (@X14_parser_attaches_original Sample.collaborators
                            (Sample.raw ["h1"; "h2"]
                               [Sample.decl "color" "red" None] None)))
              ["h1"; "h2"] _ eq_refl eq_refl)
    as [parsed [Hparsed [_ [_ [_ [_ [Horig _]]]]]]].
  inversion Hparsed. subst parsed. exact Horig.
Defined.

Lemma X15_node_without_selectors_witness :
  exists e,
    @css CommentSample.collaborators true
      (Some "/* note */ .a { color:red; }") false
    = ([ReportError "Error parsing CSS" e;
        ReportInput "Error parsing CSS" "/* note */ .a { color:red; }"],
       Normal {| classMap := []; output := "" |}).
Proof.
  destruct (@X15_node_without_selectors_gives_empty_result
              CommentSample.collaborators true
              (Some "/* note */ .a { color:red; }") false
              CommentSample.nodes
              {| rawSelectors := None; rawDeclarations := [];
                 rawPosition := Sample.at_ 1 1 1 11 |})
    as [e [Hrun _]].
  - discriminate.
  - reflexivity.
  - now left.
  - reflexivity.
  - exists e. exact Hrun.
Defined.
